(** * picture_ingest_search: image encoding, ingestion and vector search

    A shallow embedding of [picture_ingest_search.py] and the properties of
    its three functions [process_and_encode_image], [ingest_pictures] and
    [search_pictures]. *)

From Stdlib Require Import Floats Uint63.
From Stdlib Require Import ZArith List String Ascii Bool Lia.
From Stdlib Require Import Reals Lra Psatz.
From Equations Require Import Equations.
Import ListNotations.

Set Warnings "-register-all".

Open Scope string_scope.
Open Scope list_scope.
Open Scope Z_scope.

(** ** Exceptions and results *)

(** The exception classes that can cross the functions of the module.
    [except OSError] matches the class and its subclasses. *)
Inductive Exn : Type :=
  | OSError (msg : string)
  | FileNotFoundError (msg : string)
  | UnidentifiedImageError (msg : string)
  | ValueError (msg : string)
  | IndexError (msg : string)
  | KeyError (msg : string)
  | TypeError (msg : string)
  | ZeroDivisionError (msg : string)
  | OverflowError (msg : string)
  | DecompressionBombError (msg : string)
  | VoyageError (msg : string)
  | PyMongoError (msg : string).

(** [isinstance(e, OSError)]: [FileNotFoundError] is a built-in subclass and
    [PIL.UnidentifiedImageError] derives from [OSError]. *)
Definition isinstance_OSError (e : Exn) : bool :=
  match e with
  | OSError _ | FileNotFoundError _ | UnidentifiedImageError _ => true
  | _ => false
  end.

Inductive Result (A : Type) : Type :=
  | Ok (a : A)
  | Raise (e : Exn).
Arguments Ok {A} a.
Arguments Raise {A} e.

(** ** Python values

    The dict-shaped payloads exchanged with the embedding client and the
    collection.  A dict is an association list in insertion order. *)
Definition Embedding : Type := list float.

Inductive Py : Type :=
  | PStr (s : string)
  | PInt (n : Z)
  | PFloat (x : float)
  | PEmb (v : Embedding)
  | PList (items : list Py)
  | PDict (fields : list (string * Py)).

Fixpoint assoc_get (key : string) (fields : list (string * Py)) : option Py :=
  match fields with
  | [] => None
  | (k, v) :: rest => if String.eqb k key then Some v else assoc_get key rest
  end.

(** [obj[key]] *)
Definition getitem (obj : Py) (key : string) : Result Py :=
  match obj with
  | PDict fields =>
      match assoc_get key fields with
      | Some v => Ok v
      | None => Raise (KeyError key)
      end
  | PStr _ => Raise (TypeError "string indices must be integers, not 'str'")
  | PEmb _ | PList _ =>
      Raise (TypeError "list indices must be integers or slices, not str")
  | PInt _ => Raise (TypeError "'int' object is not subscriptable")
  | PFloat _ => Raise (TypeError "'float' object is not subscriptable")
  end.

(** Lines written to standard output by [print]; the text of a line is
    determined by the values it interpolates. *)
Inductive Line : Type :=
  | LResized (name : string) (new_width new_height : Z)
  | LIndexed (filename : string)
  | LFailed (filename : string) (e : Exn)
  | LResultsFor (query_text : string)
  | LMatch (file_name score : Py).

(** Code that prints and may raise: the lines printed so far and the outcome. *)
Definition IO (A : Type) : Type := list Line * Result A.

Definition ret {A} (a : A) : IO A := ([], Ok a).
Definition print (l : Line) : IO unit := ([l], Ok tt).
Definition lift {A} (r : Result A) : IO A := ([], r).
Definition bind {A B} (m : IO A) (k : A -> IO B) : IO B :=
  match m with
  | (out, Ok a) => let '(out', r) := k a in (out ++ out', r)
  | (out, Raise e) => (out, Raise e)
  end.

Declare Scope io_scope.
Delimit Scope io_scope with io.
Notation "x <- m ;; k" := (bind m (fun x => k))
  (at level 61, m at next level, right associativity) : io_scope.
Notation "m ;;; k" := (bind m (fun _ => k))
  (at level 61, right associativity) : io_scope.

(** ** Python floats

    The operations on [float] that the module uses, on ints in the range of
    the floats and on floats that are numbers.  [truediv a b] is [a / b] on
    two ints, [pow_half x] is [x ** 0.5], [mul_int n x] is [n * x] for an
    int [n], [trunc_int x] is [int(x)], [int_le n x] is [n <= x] and
    [lit_0_7] is the literal [0.7]. *)
Class PyFloat (F : Type) : Type := {
  truediv : Z -> Z -> F;
  pow_half : F -> F;
  mul_int : Z -> F -> F;
  trunc_int : F -> Z;
  int_le : Z -> F -> bool;
  lit_0_7 : F
}.

(** IEEE 754 binary64, the format of CPython's [float], on Rocq's primitive
    floats.  The quotient of two ints is the float nearest to the exact
    quotient, an int enters a product as the float nearest to it, and an int
    is compared with a float exactly.  CPython computes [x ** 0.5] with the
    C library's [pow], which the format does not fix: the arithmetic takes
    it as a parameter.  [binary64] is the arithmetic over a C library whose
    [pow] is correctly rounded at the exponent 0.5; nothing below is proved
    by evaluating it, and the properties of the resize are proved for every
    arithmetic that meets [FloatAccuracy]. *)
Module Binary64.

(** The float nearest to an int (ties to even). *)
Definition of_int (z : Z) : float :=
  SF2Prim (binary_normalize prec emax z 0 false).

(** The float nearest to the quotient of two ints (ties to even): the
    quotient to at least 55 bits and a sticky bit for the remainder, rounded
    once. *)
Definition div_int (a b : Z) : float :=
  let k := Z.max 0 (Z.log2 (Z.abs b) - Z.log2 (Z.abs a) + 56) in
  let n := Z.abs a * 2 ^ k in
  let q := n / Z.abs b in
  let sticky := if n mod Z.abs b =? 0 then 0 else 1 in
  SF2Prim (binary_normalize prec emax
             (Z.sgn a * Z.sgn b * (2 * q + sticky)) (- k - 1) false).

(** The integer part of a finite float, towards zero. *)
Definition to_int (x : float) : Z :=
  match Prim2SF x with
  | S754_finite s m e =>
      let v := if 0 <=? e then Z.shiftl (Zpos m) e
               else Z.shiftr (Zpos m) (- e) in
      if s then - v else v
  | _ => 0
  end.

(** [n <= x] for an int and a float, on their exact values. *)
Definition le_int (n : Z) (x : float) : bool :=
  match Prim2SF x with
  | S754_zero _ => n <=? 0
  | S754_infinity s => negb s
  | S754_nan => false
  | S754_finite s m e =>
      let v := if s then Zneg m else Zpos m in
      if 0 <=? e then n <=? v * 2 ^ e else n * 2 ^ (- e) <=? v
  end.

Definition binary64_with (libm_pow_half : float -> float) : PyFloat float := {|
  truediv := div_int;
  pow_half := libm_pow_half;
  mul_int n x := PrimFloat.mul (of_int n) x;
  trunc_int := to_int;
  int_le := le_int;
  lit_0_7 := 0x1.6666666666666p-1%float
|}.

#[global] Instance binary64 : PyFloat float := binary64_with PrimFloat.sqrt.

End Binary64.

(** ** Paths *)

Fixpoint string_rev_acc (s acc : string) : string :=
  match s with
  | EmptyString => acc
  | String c s' => string_rev_acc s' (String c acc)
  end.
Definition string_rev (s : string) : string := string_rev_acc s EmptyString.

(** [str.startswith] and [str.endswith] for one suffix. *)
Definition startswith (s p : string) : bool := String.prefix p s.
Fixpoint endswith (s suffix : string) : bool :=
  if String.eqb s suffix then true
  else match s with
       | EmptyString => false
       | String _ s' => endswith s' suffix
       end.

(** [s[n:]] *)
Fixpoint string_drop (n : nat) (s : string) : string :=
  match n, s with
  | O, _ => s
  | S n', String _ s' => string_drop n' s'
  | S _, EmptyString => EmptyString
  end.

(** [os.path.basename]: what follows the last slash. *)
Fixpoint basename_acc (s cur : string) : string :=
  match s with
  | EmptyString => string_rev cur
  | String c s' =>
      if Ascii.eqb c "/"%char then basename_acc s' EmptyString
      else basename_acc s' (String c cur)
  end.
Definition basename (p : string) : string := basename_acc p EmptyString.

(** [os.path.join] of two components (posixpath). *)
Definition path_join (a b : string) : string :=
  if startswith b "/" then b
  else if (String.eqb a "" || endswith a "/")%bool then (a ++ b)%string
  else (a ++ "/" ++ b)%string.

(** ** Base64 (the [base64] module: RFC 4648, standard alphabet, padded) *)

Module Base64.

Local Open Scope N_scope.

Definition alphabet : string :=
  "ABCDEFGHIJKLMNOPQRSTUVWXYZabcdefghijklmnopqrstuvwxyz0123456789+/".

(** The character of a six-bit value. *)
Definition b64_char (i : N) : ascii :=
  match String.get (N.to_nat i) alphabet with
  | Some c => c
  | None => "="%char
  end.

(** The six-bit value of a character of the alphabet. *)
Definition b64_index (c : ascii) : option N :=
  let n := N_of_ascii c in
  if (65 <=? n) && (n <=? 90) then Some (n - 65)
  else if (97 <=? n) && (n <=? 122) then Some (n - 71)
  else if (48 <=? n) && (n <=? 57) then Some (n + 4)
  else if n =? 43 then Some 62
  else if n =? 47 then Some 63
  else None.

(** The 24-bit group of three bytes, and its four six-bit digits. *)
Definition group (a b c : N) : N := a * 65536 + b * 256 + c.
Definition sextet (k : N) (n : N) : N := (n / 64 ^ (3 - k)) mod 64.

Definition byte_of (n : N) : Byte.byte :=
  match Byte.of_N n with
  | Some b => b
  | None => Byte.x00
  end.

(** [base64.b64encode(data).decode('utf-8')] *)
Fixpoint b64encode (data : list Byte.byte) : string :=
  match data with
  | [] => EmptyString
  | [a] =>
      let n := group (Byte.to_N a) 0 0 in
      String (b64_char (sextet 0 n)) (String (b64_char (sextet 1 n)) "==")
  | [a; b] =>
      let n := group (Byte.to_N a) (Byte.to_N b) 0 in
      String (b64_char (sextet 0 n)) (String (b64_char (sextet 1 n))
        (String (b64_char (sextet 2 n)) "="))
  | a :: b :: c :: rest =>
      let n := group (Byte.to_N a) (Byte.to_N b) (Byte.to_N c) in
      String (b64_char (sextet 0 n)) (String (b64_char (sextet 1 n))
        (String (b64_char (sextet 2 n)) (String (b64_char (sextet 3 n))
          (b64encode rest))))
  end.

Definition bind_opt {A B} (o : option A) (k : A -> option B) : option B :=
  match o with Some a => k a | None => None end.

(** [base64.b64decode] on padded text: four characters give three bytes,
    and the last group may end in one or two [=]. *)
Fixpoint b64decode (s : string) : option (list Byte.byte) :=
  match s with
  | EmptyString => Some []
  | String c1 (String c2 (String c3 (String c4 rest))) =>
      bind_opt (b64_index c1) (fun s1 =>
      bind_opt (b64_index c2) (fun s2 =>
      if Ascii.eqb c4 "="%char then
        match rest with
        | EmptyString =>
            if Ascii.eqb c3 "="%char then
              let n := s1 * 262144 + s2 * 4096 in
              Some [byte_of (n / 65536)]
            else
              bind_opt (b64_index c3) (fun s3 =>
              let n := s1 * 262144 + s2 * 4096 + s3 * 64 in
              Some [byte_of (n / 65536); byte_of ((n / 256) mod 256)])
        | _ => None
        end
      else
        bind_opt (b64_index c3) (fun s3 =>
        bind_opt (b64_index c4) (fun s4 =>
        let n := s1 * 262144 + s2 * 4096 + s3 * 64 + s4 in
        bind_opt (b64decode rest) (fun tl =>
        Some (byte_of (n / 65536) :: byte_of ((n / 256) mod 256)
                :: byte_of (n mod 256) :: tl))))))
  | _ => None
  end.

End Base64.

(** ** Strings: [str.lower] and [str.endswith] with a tuple *)

(** [str.lower] on the ASCII range: [A]..[Z] go to [a]..[z].  The suffixes
    tested after it are ASCII, and no character outside that range
    lower-cases to one of their letters. *)
Definition lower_char (c : ascii) : ascii :=
  let n := N_of_ascii c in
  if ((65 <=? n) && (n <=? 90))%N then ascii_of_N (n + 32) else c.

Fixpoint lower (s : string) : string :=
  match s with
  | EmptyString => EmptyString
  | String c s' => String (lower_char c) (lower s')
  end.

(** [s.endswith(suffixes)] for a tuple of suffixes. *)
Definition endswith_any (s : string) (suffixes : list string) : bool :=
  existsb (endswith s) suffixes.

(** ** Pillow

    An image as [PIL.Image] exposes it: [img.size], [img.mode] and the pixel
    data, which only the library reads. *)
Record Image (Pixels : Type) : Type := mkImage {
  size : Z * Z;
  mode : string;
  pixels : Pixels
}.
Arguments mkImage {Pixels} size mode pixels.
Arguments size {Pixels} i.
Arguments mode {Pixels} i.
Arguments pixels {Pixels} i.

(** The library calls of [process_and_encode_image].  [image_open] is
    [Image.open(path)] on the file system of the run, together with the
    loading of the pixel data: Pillow puts the loading off until the first
    use of the image, which here comes before anything is printed, so that
    a file whose data does not load leaves the function as one that does
    not open, with nothing printed.  [lanczos] resamples pixel data from
    one size to another; [convert_pixels] changes the colour model of pixel
    data; [jpeg_encode] is the JPEG encoder at a quality. *)
Class Pillow : Type := {
  Pixels : Type;
  image_open : string -> Result (Image Pixels);
  lanczos : Pixels -> Z * Z -> Z * Z -> Pixels;
  convert_pixels : string -> string -> Pixels -> Pixels;
  jpeg_encode : Image Pixels -> Z -> Result (list Byte.byte)
}.

(** The image that [img.resize] returns for a size it accepts. *)
Definition resized `{Pillow} (img : Image Pixels) (new_size : Z * Z)
  : Image Pixels :=
  mkImage new_size (mode img) (lanczos (pixels img) (size img) new_size).

(** [img.resize(size, Image.Resampling.LANCZOS)]: Pillow refuses a size
    with a side below 1. *)
Definition resize `{Pillow} (img : Image Pixels) (new_size : Z * Z)
  : Result (Image Pixels) :=
  let '(new_width, new_height) := new_size in
  if (new_width <? 1) || (new_height <? 1)
  then Raise (ValueError "height and width must be > 0")
  else Ok (resized img new_size).

(** [img.convert(m)] *)
Definition convert `{Pillow} (img : Image Pixels) (m : string)
  : Image Pixels :=
  mkImage (size img) m (convert_pixels (mode img) m (pixels img)).

(** The modes Pillow's JPEG plugin writes (the keys of its [RAWMODE]). *)
Definition jpeg_rawmode : list string :=
  ["1"; "L"; "RGB"; "RGBX"; "CMYK"; "YCbCr"].

Definition string_in (s : string) (l : list string) : bool :=
  existsb (String.eqb s) l.

(** The modes that carry an alpha band (Pillow's mode table). *)
Definition alpha_modes : list string := ["LA"; "La"; "PA"; "RGBA"; "RGBa"].
Definition has_alpha_channel (m : string) : bool := string_in m alpha_modes.

(** The three-channel colour models of Pillow's mode table. *)
Definition three_channel_modes : list string := ["RGB"; "YCbCr"; "LAB"; "HSV"].

(** [img.save(buffer, format="JPEG", quality=q)] into an emptied buffer: the
    bytes written, or [OSError] when the plugin has no raw mode for
    [img.mode]. *)
Definition save_jpeg `{Pillow} (img : Image Pixels) (quality : Z)
  : Result (list Byte.byte) :=
  if string_in (mode img) jpeg_rawmode then jpeg_encode img quality
  else Raise (OSError ("cannot write mode " ++ mode img ++ " as JPEG")%string).

(** ** process_and_encode_image *)

(** The least int beyond the floats: binary64 ends below [2^1024], and an
    int or a quotient of ints that rounds to [2^1024] raises
    [OverflowError]. *)
Definition float_limit : Z := 2 ^ 1024 - 2 ^ 970.

(** Lines 35-37: the scale factor and the new size. *)
Definition scale_factor {F : Type} {PF : PyFloat F}
  (max_pixels current_pixels : Z) : F :=
  pow_half (truediv max_pixels current_pixels).

Definition scaled_size {F : Type} {PF : PyFloat F}
  (width height max_pixels : Z) : Z * Z :=
  let current_pixels := width * height in
  let scale := scale_factor (F := F) max_pixels current_pixels in
  let new_width := trunc_int (mul_int width scale) in
  let new_height := trunc_int (mul_int height scale) in
  (new_width, new_height).

(** What [int()] says of a complex number. *)
Definition int_of_complex : string :=
  "int() argument must be a string, a bytes-like object or a real number, "
  ++ "not 'complex'".

(** Lines 31-39: the pixel limit, for the sizes Pillow gives an image, whose
    sides are C ints.  Four ways of line 35 to 38 to fail are Python's and
    Pillow's: the division by a pixel count of 0, a quotient beyond the
    floats, the power of a negative quotient, which is a complex number that
    [int()] refuses, and the resize to a size with a side below 1.  Each of
    them leaves the function before the [print] of line 39. *)
Definition pixel_limit {F : Type} {PF : PyFloat F} `{Pillow}
  (file_path : string) (img : Image Pixels) (max_pixels : Z)
  : IO (Image Pixels) :=
  let '(width, height) := size img in
  let current_pixels := width * height in
  if current_pixels >? max_pixels then
    if current_pixels =? 0 then
      lift (Raise (ZeroDivisionError "division by zero"))
    else if float_limit * Z.abs current_pixels <=? Z.abs max_pixels then
      lift (Raise (OverflowError
                     "integer division result too large for a float"))
    else if ((max_pixels <? 0) && (0 <? current_pixels))
            || ((0 <? max_pixels) && (current_pixels <? 0)) then
      lift (Raise (TypeError int_of_complex))
    else
      let '(new_width, new_height) :=
        scaled_size (F := F) width height max_pixels in
      (img' <- lift (resize img (new_width, new_height)) ;;
       print (LResized (basename file_path) new_width new_height) ;;;
       ret img')%io
  else ret img.

(** Lines 43-44. *)
Definition normalize_mode `{Pillow} (img : Image Pixels) : Image Pixels :=
  if string_in (mode img) ["RGBA"; "P"] then convert img "RGB" else img.

(** Line 57: the test that leaves the loop. *)
Definition loop_exit {F : Type} {PF : PyFloat F}
  (current_size max_bytes quality : Z) : bool :=
  int_le current_size (mul_int (F := F) max_bytes lit_0_7)
  || (quality <=? 20).

(** A value together with the equation that it is the value of a term. *)
Definition inspect {A : Type} (a : A) : {b : A | a = b} := exist _ a eq_refl.

(** Lines 49-59: the [while True] loop, from a given quality.  The result is
    the qualities passed to [img.save], in order, and the buffer's content
    at [break] or the exception that [img.save] raised. *)
Equations? compress_loop {F : Type} {PF : PyFloat F} {P : Pillow}
  (img : Image Pixels) (max_bytes : Z) (quality : Z)
  : list Z * Result (list Byte.byte) by wf (Z.to_nat quality) lt :=
compress_loop img max_bytes quality with save_jpeg img quality := {
  | Raise e => ([quality], Raise e)
  | Ok buffer with inspect
      (loop_exit (F := F) (Z.of_nat (List.length buffer)) max_bytes quality) := {
      | exist _ true Hstop => ([quality], Ok buffer)
      | exist _ false Hgo =>
          let '(qs, r) := compress_loop img max_bytes (quality - 10) in
          (quality :: qs, r) } }.
Proof.
  unfold loop_exit in Hgo.
  apply orb_false_iff in Hgo as [_ Hq].
  apply Z.leb_gt in Hq. lia.
Qed.

Definition data_url_prefix : string := "data:image/jpeg;base64,".

(** Lines 24-62. *)
Definition process_and_encode_image {F : Type} {PF : PyFloat F} `{Pillow}
  (file_path : string) (max_pixels max_bytes : Z) : IO string :=
  (img <- lift (image_open file_path) ;;
   img <- pixel_limit (F := F) file_path img max_pixels ;;
   let img := normalize_mode img in
   let quality := 95 in
   buffer <- lift (snd (compress_loop (F := F) img max_bytes quality)) ;;
   let encoded_string := Base64.b64encode buffer in
   ret (data_url_prefix ++ encoded_string)%string)%io.

Definition default_max_pixels : Z := 15000000.
Definition default_max_bytes : Z := 20000000.

(** ** The embedding client, the collection and the directory *)

(** [vo.multimodal_embed(inputs=..., model=..., input_type=...)]: the
    [embeddings] of the response, or the exception of the call. *)
Class Voyage : Type := {
  multimodal_embed : list Py -> string -> string -> Result (list Embedding)
}.

(** The collection is the list of its documents.  [insert_error docs doc] is
    the exception [insert_one] raises, if any; [aggregate docs pipeline] is
    [list(collection.aggregate(pipeline))]. *)
Class Collection : Type := {
  insert_error : list Py -> Py -> option Exn;
  aggregate : list Py -> list Py -> Result (list Py)
}.

Class FileSystem : Type := {
  listdir : string -> Result (list string)
}.

(** [collection.insert_one(doc)] *)
Definition insert_one `{Collection} (docs : list Py) (doc : Py)
  : Result (list Py) :=
  match insert_error docs doc with
  | Some e => Raise e
  | None => Ok (docs ++ [doc])
  end.

(** [response.embeddings[0]] *)
Definition first_embedding (embeddings : list Embedding) : Result Embedding :=
  match embeddings with
  | [] => Raise (IndexError "list index out of range")
  | e :: _ => Ok e
  end.

Definition embed_model : string := "voyage-multimodal-3.5".

(** The [input_type] of the request at ingestion (line 88) and at search
    (line 113). *)
Definition document_intent : string := "document".
Definition query_intent : string := "query".

(** ** ingest_pictures *)

Definition valid_extensions : list string := [".jpg"; ".jpeg"; ".png"; ".webp"].

(** Line 69: the filter on file names. *)
Definition eligible (filename : string) : bool :=
  endswith_any (lower filename) valid_extensions.

(** A run of code over the collection: the lines printed, the collection
    afterwards and the outcome. *)
Definition Run (A : Type) : Type := list Line * list Py * Result A.

(** Lines 76-83: the input of the embedding request. *)
Definition multimodal_input (b64_image : string) : Py :=
  PDict [("content",
          PList [PDict [("type", PStr "image_base64");
                        ("image_base64", PStr b64_image)]])].

(** Lines 93-97: the document that is inserted. *)
Definition picture_doc (filename : string) (embedding : Embedding)
  (image_path : string) : Py :=
  PDict [("file_name", PStr filename);
         ("embedding", PEmb embedding);
         ("metadata", PDict [("path", PStr image_path)])].

(** Lines 73-98: the body of the [try]. *)
Definition ingest_try {F : Type} {PF : PyFloat F}
  `{Pillow} `{Voyage} `{Collection}
  (filename image_path : string) (docs : list Py) : Run unit :=
  match process_and_encode_image (F := F) image_path
          default_max_pixels default_max_bytes with
  | (out, Raise e) => (out, docs, Raise e)
  | (out, Ok b64_image) =>
      match multimodal_embed [multimodal_input b64_image]
              embed_model document_intent with
      | Raise e => (out, docs, Raise e)
      | Ok embeddings =>
          match first_embedding embeddings with
          | Raise e => (out, docs, Raise e)
          | Ok embedding =>
              let doc := picture_doc filename embedding image_path in
              match insert_one docs doc with
              | Raise e => (out, docs, Raise e)
              | Ok docs' => (out ++ [LIndexed filename], docs', Ok tt)
              end
          end
      end
  end.

(** Lines 68-101: the [for] loop over the listing, with the [try] and its
    [except OSError]. *)
Fixpoint ingest_files {F : Type} {PF : PyFloat F}
  `{Pillow} `{Voyage} `{Collection}
  (directory_path : string) (files : list string) (docs : list Py)
  : Run unit :=
  match files with
  | [] => ([], docs, Ok tt)
  | filename :: rest =>
      if eligible filename then
        let image_path := path_join directory_path filename in
        match ingest_try (F := F) filename image_path docs with
        | (out, docs', Ok _) =>
            let '(out', docs'', r) :=
              ingest_files (F := F) directory_path rest docs' in
            (out ++ out', docs'', r)
        | (out, docs', Raise e) =>
            if isinstance_OSError e then
              let '(out', docs'', r) :=
                ingest_files (F := F) directory_path rest docs' in
              (out ++ [LFailed filename e] ++ out', docs'', r)
            else (out, docs', Raise e)
        end
      else ingest_files (F := F) directory_path rest docs
  end.

(** Lines 64-101. *)
Definition ingest_pictures {F : Type} {PF : PyFloat F}
  `{Pillow} `{Voyage} `{Collection} `{FileSystem}
  (directory_path : string) (docs : list Py) : Run unit :=
  match listdir directory_path with
  | Raise e => ([], docs, Raise e)
  | Ok files => ingest_files (F := F) directory_path files docs
  end.

(** ** search_pictures *)

(** Lines 118-134: the aggregation pipeline. *)
Definition search_pipeline (query_embedding : Embedding) (limit : Z)
  : list Py :=
  [ PDict [("$vectorSearch",
            PDict [("index", PStr "default");
                   ("path", PStr "embedding");
                   ("queryVector", PEmb query_embedding);
                   ("numCandidates", PInt 100);
                   ("limit", PInt limit)])];
    PDict [("$project",
            PDict [("file_name", PInt 1);
                   ("score", PDict [("$meta", PStr "vectorSearchScore")])])] ].

(** The ints that [float()] converts: those that round to a finite
    binary64. *)
Definition fits_float (n : Z) : bool := Z.abs n <? float_limit.

(** A value that the format [:.4f] accepts: a float, or an int that
    converts to one. *)
Definition is_number (v : Py) : bool :=
  match v with
  | PInt n => fits_float n
  | PFloat _ => true
  | _ => false
  end.

(** [f"{score:.4f}"]: an int is converted to a float first, a string has no
    format code [f], and a list or a dict takes no format string at all. *)
Definition format_4f (score : Py) : Result Py :=
  match score with
  | PInt n =>
      if fits_float n then Ok score
      else Raise (OverflowError "int too large to convert to float")
  | PFloat _ => Ok score
  | PStr _ =>
      Raise (ValueError "Unknown format code 'f' for object of type 'str'")
  | PEmb _ | PList _ =>
      Raise (TypeError "unsupported format string passed to list.__format__")
  | PDict _ =>
      Raise (TypeError "unsupported format string passed to dict.__format__")
  end.

(** Lines 139-140: one line per match. *)
Fixpoint print_matches (matches : list Py) : IO unit :=
  match matches with
  | [] => ret tt
  | res :: rest =>
      (file_name <- lift (getitem res "file_name") ;;
       score <- lift (getitem res "score") ;;
       score <- lift (format_4f score) ;;
       print (LMatch file_name score) ;;;
       print_matches rest)%io
  end.

(** Lines 103-141. *)
Definition search_pictures `{Voyage} `{Collection}
  (query_text : string) (limit : Z) (docs : list Py) : IO (list Py) :=
  (query_embeddings <-
     lift (multimodal_embed [PList [PStr query_text]]
             embed_model query_intent) ;;
   query_embedding <- lift (first_embedding query_embeddings) ;;
   let pipeline := search_pipeline query_embedding limit in
   matches <- lift (aggregate docs pipeline) ;;
   print (LResultsFor query_text) ;;;
   print_matches matches ;;;
   ret matches)%io.

(** ** The accuracy of float operations

    The standard model of floating-point arithmetic: every operation returns
    the exact result up to a relative error [u] (for binary64 [u] is
    [2^-53] for the correctly rounded operations and [2^-52] for [pow]),
    on the range the module uses: positive ints below [2^62], image
    dimensions below [2^31], no overflow and no underflow.  [val x] is the
    real number a float stands for, and [int(x)] of a float that is not
    negative is the integer part of its value. *)
Class FloatAccuracy (F : Type) {PF : PyFloat F} (u : R) : Type := {
  val : F -> R;
  truediv_ok : forall a b : Z,
    0 < a < 2 ^ 62 -> 0 < b < 2 ^ 62 ->
    (Rabs (val (truediv a b) - IZR a / IZR b) <= u * (IZR a / IZR b))%R;
  pow_half_ok : forall x : F,
    (0 <= val x)%R ->
    (Rabs (val (pow_half x) - sqrt (val x)) <= u * sqrt (val x))%R;
  mul_int_ok : forall (n : Z) (x : F),
    0 < n < 2 ^ 31 -> (0 <= val x <= 2)%R ->
    (Rabs (val (mul_int n x) - IZR n * val x) <= u * (IZR n * val x))%R;
  trunc_int_ok : forall x : F,
    (0 <= val x)%R -> trunc_int x = Int_part (val x)
}.

(** The scale factor in exact arithmetic: [sqrt(max_pixels / current_pixels)]. *)
Definition exact_scale (max_pixels current_pixels : Z) : R :=
  sqrt (IZR max_pixels / IZR current_pixels).

(** Floats without rounding: the real numbers themselves. *)
Module ExactFloat.

Definition trunc (x : R) : Z :=
  if Rlt_dec x 0 then (- Int_part (- x))%Z else Int_part x.

#[global] Instance exact : PyFloat R := {
  truediv a b := (IZR a / IZR b)%R;
  pow_half x := sqrt x;
  mul_int n x := (IZR n * x)%R;
  trunc_int := trunc;
  int_le n x := if Rle_dec (IZR n) x then true else false;
  lit_0_7 := (7 / 10)%R
}.

End ExactFloat.

(** The unit roundoff of binary64. *)
Definition binary64_roundoff : R := (/ 9007199254740992)%R.

(** Exact arithmetic meets the accuracy model at every tolerance. *)
Definition exact_accuracy (u : R) (Hu : (0 <= u)%R) : FloatAccuracy R u.
Proof.
  refine {| val := fun x : R => x |}.
  - intros a b Ha Hb. cbn. unfold Rminus. rewrite Rplus_opp_r, Rabs_R0.
    apply Rmult_le_pos; [exact Hu|].
    apply Rlt_le, Rdiv_lt_0_compat; apply IZR_lt; lia.
  - intros x _. cbn. unfold Rminus. rewrite Rplus_opp_r, Rabs_R0.
    apply Rmult_le_pos; [exact Hu | apply sqrt_pos].
  - intros n x Hn Hx. cbn. unfold Rminus. rewrite Rplus_opp_r, Rabs_R0.
    apply Rmult_le_pos; [exact Hu|].
    apply Rmult_le_pos; [apply IZR_le; lia | lra].
  - intros x Hx. cbn. unfold ExactFloat.trunc.
    destruct (Rlt_dec x 0); [lra | reflexivity].
Defined.

(** [descent q n]: [n] qualities from [q] down, in steps of ten. *)
Fixpoint descent (q : Z) (n : nat) : list Z :=
  match n with
  | O => []
  | S n' => q :: descent (q - 10) n'
  end.

(** The qualities [process_and_encode_image] passes to [img.save] for an
    opened image: those of the loop from 95, on the image as the loop gets
    it. *)
Definition save_qualities {F : Type} {PF : PyFloat F} `{Pillow}
  (img : Image Pixels) (max_bytes : Z) : list Z :=
  fst (compress_loop (F := F) img max_bytes 95).

(** ** Sample collaborators *)

(** A codec whose output has 14,000,001 bytes at every quality, on a
    directory where every file opens as a 4000 x 3000 RGB picture. *)
Definition oversize_buffer : list Byte.byte :=
  repeat Byte.x00 (Z.to_nat 14000001).

Definition photo : Image unit := mkImage (4000, 3000) "RGB" tt.

Definition oversize_codec : Pillow := {|
  Pixels := unit;
  image_open := fun _ => Ok photo;
  lanczos := fun p _ _ => p;
  convert_pixels := fun _ _ p => p;
  jpeg_encode := fun _ _ => Ok oversize_buffer
|}.

(** A small album: [pics/cat.jpg] opens as a 4 x 4 RGB picture,
    [pics/logo.png] as a 4 x 4 RGBA picture, [pics/scan.png] as a grey
    picture with alpha (mode [LA]), [pics/bad.png] is corrupt, and nothing
    else exists.  The encoder writes a four-byte stream at every quality. *)
Definition jpeg_stub : list Byte.byte := [Byte.xff; Byte.xd8; Byte.xff; Byte.xd9].

Definition album_open (path : string) : Result (Image unit) :=
  if String.eqb path "pics/cat.jpg" then Ok (mkImage (4, 4) "RGB" tt)
  else if String.eqb path "pics/logo.png" then Ok (mkImage (4, 4) "RGBA" tt)
  else if String.eqb path "pics/scan.png" then Ok (mkImage (4, 4) "LA" tt)
  else if String.eqb path "pics/bad.png"
  then Raise (UnidentifiedImageError "cannot identify image file")
  else Raise (FileNotFoundError "No such file or directory").

Definition album : Pillow := {|
  Pixels := unit;
  image_open := album_open;
  lanczos := fun p _ _ => p;
  convert_pixels := fun _ _ p => p;
  jpeg_encode := fun _ _ => Ok jpeg_stub
|}.

(** A panorama strip of 15,000,001 x 1 pixels, one pixel over the default
    pixel limit, on a directory where every file opens as that strip. *)
Definition panorama : Image unit := mkImage (15000001, 1) "RGB" tt.

Definition panorama_codec : Pillow := {|
  Pixels := unit;
  image_open := fun _ => Ok panorama;
  lanczos := fun p _ _ => p;
  convert_pixels := fun _ _ p => p;
  jpeg_encode := fun _ _ => Ok jpeg_stub
|}.

(** A directory listing: a good picture, a corrupt one and a text file. *)
Definition pics : FileSystem := {|
  listdir := fun path =>
    if String.eqb path "pics" then Ok ["cat.jpg"; "bad.png"; "notes.txt"]
    else Raise (FileNotFoundError "No such file or directory")
|}.

(** An embedding client that answers every request with one vector, and one
    that fails before any request is sent, with the [OSError] the HTTP
    library raises when it finds no CA bundle. *)
Definition constant_embedder : Voyage := {|
  multimodal_embed := fun _ _ _ => Ok [[PrimFloat.one; PrimFloat.zero]]
|}.

Definition no_ca_bundle : Exn :=
  OSError "Could not find a suitable TLS CA certificate bundle".

Definition offline_embedder : Voyage := {|
  multimodal_embed := fun _ _ _ => Raise no_ca_bundle
|}.

(** The [limit] of the [$vectorSearch] stage that opens a pipeline. *)
Definition pipeline_limit (pipeline : list Py) : option Z :=
  match pipeline with
  | PDict [("$vectorSearch", PDict fields)] :: _ =>
      match assoc_get "limit" fields with
      | Some (PInt n) => Some n
      | _ => None
      end
  | _ => None
  end.

(** A store keeps to the contract of [$vectorSearch] when it returns at
    most [limit] documents. *)
Definition honours_limit `{Collection} : Prop :=
  forall (docs pipeline matches : list Py) (limit : Z),
    aggregate docs pipeline = Ok matches ->
    pipeline_limit pipeline = Some limit ->
    Z.of_nat (List.length matches) <= limit.

(** A store that accepts every insert and ranks a fixed list of matches. *)
Definition ranked_matches : list Py :=
  [ PDict [("file_name", PStr "cat.jpg"); ("score", PFloat PrimFloat.one)];
    PDict [("file_name", PStr "dog.jpg"); ("score", PFloat PrimFloat.zero)] ].

Definition sample_store : Collection := {|
  insert_error := fun _ _ => None;
  aggregate := fun _ pipeline =>
    match pipeline_limit pipeline with
    | Some limit =>
        if limit <? 1 then Raise (PyMongoError "limit must be positive")
        else Ok (firstn (Z.to_nat limit) ranked_matches)
    | None => Raise (PyMongoError "invalid pipeline")
    end
|}.

(** ** The command line (lines 143-171) *)

(** [sep.join(words)] for the separator [" "]. *)
Fixpoint join_spaces (words : list string) : string :=
  match words with
  | [] => EmptyString
  | [w] => w
  | w :: rest => (w ++ " " ++ join_spaces rest)%string
  end.

(** The truth value of a Python value: empty strings and containers and
    zero are false. *)
Definition truthy (v : Py) : bool :=
  match v with
  | PStr s => negb (String.eqb s "")
  | PInt n => negb (n =? 0)
  | PFloat x => negb (PrimFloat.eqb x PrimFloat.zero)
  | PEmb e => match e with [] => false | _ => true end
  | PList l => match l with [] => false | _ => true end
  | PDict f => match f with [] => false | _ => true end
  end.

(** [collection.find_one(filter)]: the fields of a document, or [None]. *)
Class Finder : Type := {
  find_one : list Py -> Py -> Result (option (list (string * Py)))
}.

(** What the script writes to standard output or puts on the screen: the
    lines of the functions above, the usage note of line 145, the start
    note of line 152, the note of lines 157-159, the note of line 171, and
    the picture that [Image.open(path).show()] displays. *)
Inductive Event : Type :=
  | EPrint (l : Line)
  | EUsage
  | EStarting (images_dir : string)
  | ENoSearchTerm
  | EUnknown (command : string)
  | EShow (img_path : string).

(** How the script ends: it runs to its end, leaves through [sys.exit], or
    dies of an exception. *)
Inductive Exit : Type :=
  | Returned
  | SystemExit (code : Z)
  | Uncaught (e : Exn).

Definition exit_of (r : Result unit) : Exit :=
  match r with
  | Ok _ => Returned
  | Raise e => Uncaught e
  end.

(** Lines 165-168 for one result.  A [path] that is not a string cannot be
    opened; the exception of that case stands for the one Pillow raises. *)
Definition show_match `{Pillow} `{Finder} (docs : list Py) (result : Py)
  : list Event * Result unit :=
  match getitem result "file_name" with
  | Raise e => ([], Raise e)
  | Ok file_name =>
      match find_one docs (PDict [("file_name", file_name)]) with
      | Raise e => ([], Raise e)
      | Ok None => ([], Ok tt)
      | Ok (Some doc) =>
          let metadata :=
            match assoc_get "metadata" doc with
            | Some m => truthy m
            | None => false
            end in
          if truthy (PDict doc) && metadata then
            match getitem (PDict doc) "metadata" with
            | Raise e => ([], Raise e)
            | Ok m =>
                match getitem m "path" with
                | Raise e => ([], Raise e)
                | Ok (PStr img_path) =>
                    match image_open img_path with
                    | Raise e => ([], Raise e)
                    | Ok _ => ([EShow img_path], Ok tt)
                    end
                | Ok _ => ([], Raise (TypeError "path is not a string"))
                end
            end
          else ([], Ok tt)
      end
  end.

(** Lines 164-168: the loop over the results. *)
Fixpoint show_matches `{Pillow} `{Finder} (docs : list Py) (results : list Py)
  : list Event * Result unit :=
  match results with
  | [] => ([], Ok tt)
  | result :: rest =>
      match show_match docs result with
      | (evs, Raise e) => (evs, Raise e)
      | (evs, Ok _) =>
          let '(evs', r) := show_matches docs rest in (evs ++ evs', r)
      end
  end.

(** Lines 143-171, for the arguments [sys.argv] and the configured
    [IMAGES_DIR]. *)
Definition main {F : Type} {PF : PyFloat F}
  `{Pillow} `{Voyage} `{Collection} `{FileSystem} `{Finder}
  (argv : list string) (images_dir : string) (docs : list Py)
  : list Event * list Py * Exit :=
  match argv with
  | [] | [_] => ([EUsage], docs, SystemExit 1)
  | _ :: arg1 :: terms =>
      let command := lower arg1 in
      if String.eqb command "ingest" then
        let '(out, docs', r) :=
          ingest_pictures (F := F) images_dir docs in
        (EStarting images_dir :: map EPrint out, docs', exit_of r)
      else if String.eqb command "search" then
        match terms with
        | [] => ([ENoSearchTerm], docs, SystemExit 1)
        | _ =>
            let SEARCH_TERM := join_spaces terms in
            match search_pictures SEARCH_TERM 1 docs with
            | (out, Raise e) => (map EPrint out, docs, Uncaught e)
            | (out, Ok results) =>
                let '(evs, r) := show_matches docs results in
                (map EPrint out ++ evs, docs, exit_of r)
            end
        end
      else ([EUnknown command], docs, Returned)
  end.

(** ** Predicates used in the statements *)

Fixpoint string_forallb (p : ascii -> bool) (s : string) : bool :=
  match s with
  | EmptyString => true
  | String c s' => p c && string_forallb p s'
  end.

(** A name without a slash, as [os.listdir] yields them. *)
Definition no_slash (name : string) : bool :=
  string_forallb (fun c => negb (Ascii.eqb c "/")) name.

(** A character of base64 text: one of the alphabet, or the padding. *)
Definition b64_text_char (c : ascii) : bool :=
  match Base64.b64_index c with
  | Some _ => true
  | None => Ascii.eqb c "="
  end.

Definition is_indexed (l : Line) : bool :=
  match l with LIndexed _ => true | _ => false end.
Definition is_failed (l : Line) : bool :=
  match l with LFailed _ _ => true | _ => false end.
Definition is_show (e : Event) : bool :=
  match e with EShow _ => true | _ => false end.

(** Output without an [Indexed] and without a [Failed] line. *)
Definition quiet (out : list Line) : Prop :=
  filter is_indexed out = [] /\ filter is_failed out = [].

(** A match that line 140 can print: it carries a file name and a score,
    and the score is a number. *)
Definition printable (m : Py) : Prop :=
  exists file_name score : Py,
    getitem m "file_name" = Ok file_name
    /\ getitem m "score" = Ok score /\ is_number score = true.

(** An embedding client whose response carries no embedding. *)
Definition empty_embedder : Voyage := {|
  multimodal_embed := fun _ _ _ => Ok []
|}.

(** A finder that returns the first document with the file name asked for. *)
Definition first_by_file_name : Finder := {|
  find_one := fun docs filter =>
    match filter with
    | PDict [("file_name", PStr name)] =>
        Ok (List.find
              (fun fields =>
                 match assoc_get "file_name" fields with
                 | Some (PStr n) => String.eqb n name
                 | _ => false
                 end)
              (flat_map (fun d => match d with PDict f => [f] | _ => [] end)
                 docs))
    | _ => Ok None
    end
|}.

(** * Properties *)

Section Loop.

Context {F : Type} {PF : PyFloat F} {P : Pillow}.

Lemma compress_loop_descent (img : Image Pixels) (max_bytes quality : Z) :
  exists n : nat,
    fst (compress_loop (F := F) img max_bytes quality) = descent quality (S n)
    /\ (n <> O -> 10 < quality - 10 * Z.of_nat n).
Proof.
  funelim (compress_loop (F := F) img max_bytes quality).
  - exists O. split; [reflexivity | congruence].
  - exists O. split; [reflexivity | congruence].
  - destruct H as [n [Hqs Hn]].
    exists (S n). 
    destruct (compress_loop img max_bytes (quality - 10)) as [qs r].
    cbn [fst] in Hqs |- *. split.
    + rewrite Hqs. reflexivity.
    + intros _. unfold loop_exit in Hgo.
      destruct (orb_false_elim _ _ Hgo) as [_ Hq]. apply Z.leb_gt in Hq.
      destruct n as [|n]; [lia|].
      specialize (Hn ltac:(congruence)). lia.
Qed.

Lemma compress_loop_step (img : Image Pixels) (max_bytes quality : Z) :
  compress_loop (F := F) img max_bytes quality =
  match save_jpeg img quality with
  | Raise e => ([quality], Raise e)
  | Ok buffer =>
      if loop_exit (F := F) (Z.of_nat (List.length buffer)) max_bytes quality
      then ([quality], Ok buffer)
      else let '(qs, r) := compress_loop (F := F) img max_bytes (quality - 10) in
           (quality :: qs, r)
  end.
Proof.
  funelim (compress_loop (F := F) img max_bytes quality).
  - rewrite Heq. reflexivity.
  - rewrite Heq, Hstop. reflexivity.
  - rewrite Heq, Hgo. reflexivity.
Qed.

Lemma compress_loop_nonempty (img : Image Pixels) (max_bytes quality : Z) :
  fst (compress_loop (F := F) img max_bytes quality) <> [].
Proof.
  destruct (compress_loop_descent img max_bytes quality) as [n [Hqs _]].
  rewrite Hqs. discriminate.
Qed.

Lemma last_nonempty_default {A : Type} (l : list A) (d d' : A) :
  l <> [] -> last l d = last l d'.
Proof.
  induction l as [|a [|b l] IH]; intros Hne; [congruence | reflexivity |].
  change (last (b :: l) d = last (b :: l) d'). apply IH. discriminate.
Qed.

Lemma compress_loop_last_save (img : Image Pixels) (max_bytes quality : Z) :
  snd (compress_loop (F := F) img max_bytes quality) =
  save_jpeg img (last (fst (compress_loop (F := F) img max_bytes quality)) quality).
Proof.
  funelim (compress_loop (F := F) img max_bytes quality).
  - cbn. now rewrite Heq.
  - cbn. now rewrite Heq.
  - pose proof (compress_loop_nonempty img max_bytes (quality - 10)) as Hne.
    destruct (compress_loop img max_bytes (quality - 10)) as [qs r].
    cbn [fst snd] in *. rewrite H.
    destruct qs as [|q' qs]; [congruence|].
    f_equal. change (last (q' :: qs) (quality - 10) = last (q' :: qs) quality).
    apply last_nonempty_default. discriminate.
Qed.

Lemma descent_95 (n : nat) :
  (n <= 8)%nat ->
  descent 95 (S n) = firstn (S n) [95; 85; 75; 65; 55; 45; 35; 25; 15].
Proof.
  intros Hn.
  do 9 (destruct n as [|n]; [reflexivity|]). lia.
Qed.

Lemma save_qualities_prefix (img : Image Pixels) (max_bytes : Z) :
  exists n : nat,
    (1 <= n <= 9)%nat /\
    save_qualities (F := F) img max_bytes =
    firstn n [95; 85; 75; 65; 55; 45; 35; 25; 15].
Proof.
  unfold save_qualities.
  destruct (compress_loop_descent img max_bytes 95) as [n [Hqs Hn]].
  assert (n <= 8)%nat by (destruct n; [lia | specialize (Hn ltac:(congruence)); lia]).
  exists (S n). split; [lia|]. rewrite Hqs. now apply descent_95.
Qed.

End Loop.

(** ** The loop on a codec that never meets the budget *)

Lemma oversize_length : Z.of_nat (List.length oversize_buffer) = 14000001.
Proof.
  unfold oversize_buffer. rewrite repeat_length. now rewrite Z2Nat.id by lia.
Qed.

Lemma oversize_over_budget :
  int_le (F := float) 14000001 (mul_int default_max_bytes lit_0_7) = false.
Proof. vm_compute. reflexivity. Qed.

Lemma oversize_loop (quality : Z) :
  compress_loop (F := float) (P := oversize_codec)
    photo default_max_bytes quality =
  if quality <=? 20 then ([quality], Ok oversize_buffer)
  else let '(qs, r) :=
         compress_loop (F := float) (P := oversize_codec)
           photo default_max_bytes (quality - 10) in
       (quality :: qs, r).
Proof.
  rewrite compress_loop_step.
  change (save_jpeg (H := oversize_codec) photo quality)
    with (@Ok (list Byte.byte) oversize_buffer).
  cbv beta iota. rewrite oversize_length. unfold loop_exit.
  rewrite oversize_over_budget. reflexivity.
Qed.

Lemma oversize_continue (quality : Z) :
  20 < quality ->
  fst (compress_loop (F := float) (P := oversize_codec)
         photo default_max_bytes quality) =
  quality :: fst (compress_loop (F := float) (P := oversize_codec)
                    photo default_max_bytes (quality - 10)).
Proof.
  intros Hq. rewrite oversize_loop at 1.
  destruct (Z.leb_spec quality 20) as [Hle|_]; [lia|].
  now destruct (compress_loop (F := float) (P := oversize_codec)
                 photo default_max_bytes (quality - 10)).
Qed.

Lemma oversize_stop (quality : Z) :
  quality <= 20 ->
  compress_loop (F := float) (P := oversize_codec)
    photo default_max_bytes quality = ([quality], Ok oversize_buffer).
Proof.
  intros Hq. rewrite oversize_loop.
  destruct (Z.leb_spec quality 20) as [_|Hgt]; [reflexivity | lia].
Qed.

Lemma oversize_qualities :
  save_qualities (F := float) (H := oversize_codec) photo default_max_bytes =
  [95; 85; 75; 65; 55; 45; 35; 25; 15].
Proof.
  unfold save_qualities.
  do 8 (rewrite oversize_continue by lia).
  rewrite oversize_stop by lia. reflexivity.
Qed.

(** ** The compression loop (claims C1 and C2) *)

Section LoopClaims.

Context {F : Type} {PF : PyFloat F} {P : Pillow}.

(** C1, as the code has it: the qualities passed to [img.save] start at 95,
    each one is the one before minus 10 (so the sequence never increases),
    and none is below 15.  The test [quality <= 20] is made after the save,
    so the save that follows quality 25 runs at quality 15. *)
Theorem quality_starts_95_steps_10_floor_15
  (img : Image Pixels) (max_bytes : Z) :
  let qs := save_qualities (F := F) img max_bytes in
  hd_error qs = Some 95
  /\ (forall (i : nat) (q q' : Z),
        nth_error qs i = Some q -> nth_error qs (S i) = Some q' ->
        q' = q - 10)
  /\ Forall (fun q => 15 <= q <= 95) qs.
Proof.
  intros qs. subst qs.
  destruct (save_qualities_prefix (F := F) img max_bytes) as [n [[Hlo Hhi] Hqs]].
  rewrite Hqs. clear Hqs.
  assert (Hn : (n = 1 \/ n = 2 \/ n = 3 \/ n = 4 \/ n = 5 \/ n = 6 \/
                n = 7 \/ n = 8 \/ n = 9)%nat) by lia.
  clear Hlo Hhi.
  repeat (destruct Hn as [-> | Hn]); try subst n;
    (split; [reflexivity | split]);
    try (repeat constructor; lia);
    intros i q q' Hq Hq';
    do 9 (destruct i as [|i];
          [cbn in Hq, Hq'; try discriminate;
           injection Hq as <-; injection Hq' as <-; reflexivity|]);
    cbn in Hq; discriminate.
Qed.

(** C2, as the code has it: the loop makes at most nine saves, and its
    outcome is the outcome of its last save: the buffer that save wrote or
    the exception that save raised.  The loop raises nothing of its own:
    at a quality of 20 or less it returns the buffer whatever its size. *)
Theorem loop_at_most_nine_saves_returns_last
  (img : Image Pixels) (max_bytes : Z) :
  (1 <= List.length (save_qualities (F := F) img max_bytes) <= 9)%nat
  /\ snd (compress_loop (F := F) img max_bytes 95) =
     save_jpeg img (last (save_qualities (F := F) img max_bytes) 95)
  /\ (forall (quality : Z) (buffer : list Byte.byte),
        quality <= 20 -> save_jpeg img quality = Ok buffer ->
        compress_loop (F := F) img max_bytes quality = ([quality], Ok buffer)).
Proof.
  split; [|split].
  - destruct (save_qualities_prefix (F := F) img max_bytes) as [n [Hn Hqs]].
    rewrite Hqs, length_firstn. cbn [List.length]. lia.
  - apply compress_loop_last_save.
  - intros quality buffer Hq Hsave.
    rewrite compress_loop_step, Hsave. unfold loop_exit.
    destruct (Z.leb_spec quality 20) as [_|Hgt]; [|lia].
    now rewrite orb_true_r.
Qed.

End LoopClaims.

(** C1 fails as stated: on a picture whose JPEG stays over the budget, the
    ninth save runs at quality 15, below 20. *)
Lemma quality_15_is_below_20 :
  ~ Forall (fun q => 20 <= q)
      (save_qualities (F := float) (H := oversize_codec)
         photo default_max_bytes).
Proof.
  rewrite oversize_qualities. intros Hall.
  repeat match goal with
         | H : Forall _ (_ :: _) |- _ => inversion H; subst; clear H
         end.
  lia.
Qed.

(** C2 fails as stated: on the same picture the loop runs nine times. *)
Lemma nine_iterations_exceed_eight :
  ~ (List.length (save_qualities (F := float) (H := oversize_codec)
                    photo default_max_bytes) <= 8)%nat.
Proof. rewrite oversize_qualities. cbn. lia. Qed.

(** ** The pixel limit (claims C3, C4 and C5) *)

Section PixelLimitStep.

Context {F : Type} {PF : PyFloat F} {P : Pillow}.

(** The branch of line 34 for a pixel budget that is not negative: the
    outcome is that of the resize to the computed size. *)
Lemma float_limit_pos : 1 <= float_limit.
Proof. intros Hgt. vm_compute in Hgt. discriminate. Qed.

Lemma pixel_limit_resize_step
  (file_path : string) (img : Image Pixels)
  (width height max_pixels new_width new_height : Z) :
  size img = (width, height) ->
  0 <= max_pixels < width * height ->
  scaled_size (F := F) width height max_pixels = (new_width, new_height) ->
  pixel_limit (F := F) file_path img max_pixels =
  match resize img (new_width, new_height) with
  | Ok img' => ([LResized (basename file_path) new_width new_height], Ok img')
  | Raise e => ([], Raise e)
  end.
Proof.
  intros Hsize [HM Hlt] Hscaled. unfold pixel_limit. rewrite Hsize.
  destruct (Z.gtb_spec (width * height) max_pixels) as [_|Hle]; [|lia].
  destruct (Z.eqb_spec (width * height) 0) as [Hz|_]; [lia|].
  pose proof float_limit_pos as Hfl.
  destruct (Z.leb_spec (float_limit * Z.abs (width * height))
              (Z.abs max_pixels)) as [Hover|_]; [nia|].
  destruct (Z.ltb_spec max_pixels 0) as [Hneg|_]; [lia|].
  destruct (Z.ltb_spec (width * height) 0) as [Hneg|_]; [lia|].
  rewrite andb_false_r. cbn [andb orb]. rewrite Hscaled.
  destruct (resize img (new_width, new_height)); reflexivity.
Qed.

Lemma resize_positive (img : Image Pixels) (new_width new_height : Z) :
  1 <= new_width -> 1 <= new_height ->
  resize img (new_width, new_height) = Ok (resized img (new_width, new_height)).
Proof.
  intros Hw Hh. unfold resize.
  destruct (Z.ltb_spec new_width 1); [lia|].
  destruct (Z.ltb_spec new_height 1); [lia|]. reflexivity.
Qed.

Lemma resize_empty (img : Image Pixels) (new_width new_height : Z) :
  new_width < 1 \/ new_height < 1 ->
  resize img (new_width, new_height)
  = Raise (ValueError "height and width must be > 0").
Proof.
  intros Hside. unfold resize.
  destruct (Z.ltb_spec new_width 1); [reflexivity|].
  destruct (Z.ltb_spec new_height 1); [reflexivity | lia].
Qed.

End PixelLimitStep.

Section Resize.

Context {F : Type} {PF : PyFloat F} {u : R} {FA : FloatAccuracy F u}.
Context {P : Pillow}.

Local Open Scope R_scope.

Lemma rel_err_bounds (x y e : R) :
  Rabs (x - y) <= e * y -> (1 - e) * y <= x <= (1 + e) * y.
Proof.
  intros Hxy. unfold Rabs in Hxy. destruct (Rcase_abs (x - y)); lra.
Qed.

Lemma sqrt_rel_bounds (q rho e : R) :
  0 <= rho -> 0 <= e <= 1 ->
  (1 - e) * rho <= q <= (1 + e) * rho ->
  (1 - e) * sqrt rho <= sqrt q <= (1 + e) * sqrt rho.
Proof.
  intros Hrho He [Hlo Hhi].
  pose proof (sqrt_pos rho) as Hs.
  pose proof (sqrt_sqrt rho Hrho) as Hss.
  split.
  - rewrite <- (sqrt_square ((1 - e) * sqrt rho)) by nra.
    apply sqrt_le_1_alt. nra.
  - rewrite <- (sqrt_square ((1 + e) * sqrt rho)) by nra.
    apply sqrt_le_1_alt. nra.
Qed.

Lemma exact_scale_facts (M cur : Z) :
  (0 < M < cur)%Z ->
  0 < exact_scale M cur <= 1
  /\ exact_scale M cur * exact_scale M cur = IZR M / IZR cur.
Proof.
  intros [HM Hcur]. unfold exact_scale.
  assert (HMr : 0 < IZR M) by now apply IZR_lt.
  assert (Hcr : IZR M < IZR cur) by now apply IZR_lt.
  assert (Hrho : 0 < IZR M / IZR cur) by (apply Rdiv_lt_0_compat; lra).
  assert (Hrho1 : IZR M / IZR cur <= 1).
  { apply Rmult_le_reg_r with (IZR cur); [lra|]. field_simplify; lra. }
  split; [split|].
  - now apply sqrt_lt_R0.
  - rewrite <- sqrt_1. now apply sqrt_le_1_alt.
  - apply sqrt_sqrt. lra.
Qed.

Lemma scale_factor_bounds (M cur : Z) :
  (0 < M < cur)%Z -> (cur < 2 ^ 62)%Z -> 0 <= u <= 1 ->
  (1 - u) * (1 - u) * exact_scale M cur
    <= val (scale_factor (F := F) M cur)
    <= (1 + u) * (1 + u) * exact_scale M cur.
Proof.
  intros HM Hcur Hu.
  destruct (exact_scale_facts M cur HM) as [[Hs0 Hs1] Hss].
  unfold scale_factor.
  assert (Hrho : 0 <= IZR M / IZR cur) by (rewrite <- Hss; nra).
  pose proof (truediv_ok M cur ltac:(lia) ltac:(lia)) as Hq.
  apply rel_err_bounds in Hq.
  assert (Hq0 : 0 <= val (truediv (F := F) M cur)) by nra.
  pose proof (pow_half_ok _ Hq0) as Hp.
  apply rel_err_bounds in Hp.
  pose proof (sqrt_rel_bounds _ _ u Hrho Hu Hq) as Hsq.
  fold (exact_scale M cur) in Hsq.
  pose proof (sqrt_pos (val (truediv (F := F) M cur))) as Hsp.
  split; nra.
Qed.

Lemma scaled_dim_bounds (n M cur : Z) :
  (0 < n < 2 ^ 31)%Z -> (0 < M < cur)%Z -> (cur < 2 ^ 62)%Z ->
  0 <= u -> (1 + u) ^ 6 <= 2 ->
  let x := val (mul_int n (scale_factor (F := F) M cur)) in
  (1 - u) ^ 3 * (IZR n * exact_scale M cur) <= x
  /\ x <= (1 + u) ^ 3 * (IZR n * exact_scale M cur)
  /\ 0 <= x.
Proof.
  intros Hn HM Hcur Hu0 Hu6 x. subst x.
  assert (Hu : 0 <= u <= 1) by nra.
  assert (Hu2 : (1 + u) * (1 + u) <= 2) by nra.
  destruct (exact_scale_facts M cur HM) as [[Hs0 Hs1] _].
  pose proof (scale_factor_bounds M cur HM Hcur Hu) as [Hlo Hhi].
  set (s := val (scale_factor (F := F) M cur)) in *.
  assert (Hs : 0 <= s <= 2) by nra.
  pose proof (mul_int_ok n _ Hn Hs) as Hx. fold s in Hx.
  apply rel_err_bounds in Hx.
  assert (Hnr : 0 < IZR n) by (apply IZR_lt; lia).
  set (x := val (mul_int n (scale_factor (F := F) M cur))) in *.
  set (sg := exact_scale M cur) in *.
  assert (Hns_lo : (1 - u) * (1 - u) * (IZR n * sg) <= IZR n * s) by nra.
  assert (Hns_hi : IZR n * s <= (1 + u) * (1 + u) * (IZR n * sg)) by nra.
  assert (Hns0 : 0 <= IZR n * sg) by nra.
  assert (Hns1 : 0 <= IZR n * s) by nra.
  split; [|split]; nra.
Qed.

Lemma Int_part_bounds (x : R) :
  0 <= x -> (0 <= Int_part x)%Z /\ x - 1 < IZR (Int_part x) <= x.
Proof.
  intros Hx. destruct (base_Int_part x) as [Hle Hgt].
  split; [|lra].
  assert (Hlt : IZR (-1) < IZR (Int_part x)) by lra.
  apply lt_IZR in Hlt. lia.
Qed.

(** The short side of a thin strip: when [short * max_pixels < long], the
    product [short * scale] of line 36 or 37 is below 1 and [int()] makes
    it 0.  [current_pixels] is the product of the two sides in either
    order. *)
Lemma short_side_truncates_to_0 (long short max_pixels current_pixels : Z) :
  (0 < long < 2 ^ 31)%Z -> (0 < short < 2 ^ 31)%Z ->
  (0 < max_pixels)%Z -> (short * max_pixels < long)%Z ->
  current_pixels = (long * short)%Z ->
  0 <= u -> (1 + u) ^ 6 <= 2 ->
  2 * IZR long * ((1 + u) ^ 3 - 1) < 1 ->
  trunc_int (mul_int short (scale_factor (F := F) max_pixels current_pixels))
  = 0%Z.
Proof.
  intros Hl Hs HM Hthin -> Hu0 Hu6 Hacc.
  assert (HMcur : (0 < max_pixels < long * short)%Z) by nia.
  assert (Hcur : (long * short < 2 ^ 62)%Z) by nia.
  destruct (exact_scale_facts _ _ HMcur) as [[Hs0 Hs1] Hss].
  destruct (scaled_dim_bounds short _ _ Hs HMcur Hcur Hu0 Hu6)
    as [_ [Hxhi Hx0]].
  rewrite (trunc_int_ok _ Hx0). symmetry. apply Int_part_spec.
  set (sigma := exact_scale max_pixels (long * short)) in *.
  set (x := val (mul_int short
                   (scale_factor (F := F) max_pixels (long * short)))) in *.
  assert (Hlr : 1 <= IZR long) by (apply IZR_le; lia).
  assert (Hsr : 1 <= IZR short) by (apply IZR_le; lia).
  assert (Hint : IZR short * IZR max_pixels <= IZR long - 1).
  { rewrite <- mult_IZR, <- minus_IZR. apply IZR_le. lia. }
  assert (Hsq : IZR short * sigma * (IZR short * sigma) * IZR long
                <= IZR long - 1).
  { replace (IZR short * sigma * (IZR short * sigma) * IZR long)
      with (IZR short * IZR short * IZR long * (sigma * sigma)) by ring.
    rewrite Hss, mult_IZR.
    replace (IZR short * IZR short * IZR long
             * (IZR max_pixels / (IZR long * IZR short)))
      with (IZR short * IZR max_pixels) by (field; lra).
    exact Hint. }
  set (a := IZR long) in *. set (b := IZR short * sigma) in *.
  set (E := (1 + u) ^ 3) in *.
  assert (He3 : 1 <= E) by (unfold E; nra).
  assert (Hb0 : 0 <= b) by (unfold b; nra).
  assert (Hb1 : 2 * a * b <= 2 * a - 1) by nra.
  assert (Hx1 : 2 * a * x <= E * (2 * a * b)) by nra.
  assert (Hx2 : E * (2 * a * b) <= E * (2 * a - 1)) by nra.
  assert (Hlt : x < 1) by nra.
  cbn. lra.
Qed.

(** C3 fails on thin strips.  For an image so wide that
    [height * max_pixels < width], or so tall that
    [width * max_pixels < height], the image has more than [max_pixels]
    pixels, line 36 or 37 computes a side of 0, and [img.resize] of line 38
    raises [ValueError]: the pixel-limit step resizes nothing and prints
    nothing, and [process_and_encode_image] leaves with that exception in
    place of the payload.  In float arithmetic of relative accuracy [u],
    with the longer side small against [1 / u]. *)
Theorem thin_strip_resize_raises_value_error
  (file_path : string) (img : Image Pixels)
  (width height max_pixels max_bytes : Z) :
  size img = (width, height) ->
  (0 < width < 2 ^ 31)%Z -> (0 < height < 2 ^ 31)%Z ->
  (0 < max_pixels)%Z ->
  (height * max_pixels < width \/ width * max_pixels < height)%Z ->
  0 <= u -> (1 + u) ^ 6 <= 2 ->
  2 * IZR (Z.max width height) * ((1 + u) ^ 3 - 1) < 1 ->
  (width * height > max_pixels)%Z
  /\ (fst (scaled_size (F := F) width height max_pixels) = 0%Z
      \/ snd (scaled_size (F := F) width height max_pixels) = 0%Z)
  /\ pixel_limit (F := F) file_path img max_pixels
     = ([], Raise (ValueError "height and width must be > 0"))
  /\ (image_open file_path = Ok img ->
      process_and_encode_image (F := F) file_path max_pixels max_bytes
      = ([], Raise (ValueError "height and width must be > 0"))).
Proof.
  intros Hsize Hw Hh HM Hthin Hu0 Hu6 Hacc.
  assert (He3 : 0 <= (1 + u) ^ 3 - 1) by nra.
  assert (Hgt : (width * height > max_pixels)%Z) by nia.
  assert (Hzero : fst (scaled_size (F := F) width height max_pixels) = 0%Z
                  \/ snd (scaled_size (F := F) width height max_pixels) = 0%Z).
  { destruct Hthin as [Hwide | Htall]; [right | left]; unfold scaled_size;
      cbv zeta; cbn [fst snd].
    - apply (short_side_truncates_to_0 width height max_pixels);
        try assumption; [reflexivity|].
      assert (IZR width <= IZR (Z.max width height)) by (apply IZR_le; lia).
      nra.
    - apply (short_side_truncates_to_0 height width max_pixels);
        try assumption; [apply Z.mul_comm|].
      assert (IZR height <= IZR (Z.max width height)) by (apply IZR_le; lia).
      nra. }
  assert (Hlimit : pixel_limit (F := F) file_path img max_pixels
                   = ([], Raise (ValueError "height and width must be > 0"))).
  { destruct (scaled_size (F := F) width height max_pixels)
      as [new_width new_height] eqn:Hscaled.
    rewrite (pixel_limit_resize_step file_path img width height max_pixels
               new_width new_height Hsize ltac:(lia) Hscaled).
    rewrite resize_empty; [reflexivity|].
    cbn [fst snd] in Hzero. lia. }
  split; [exact Hgt|]. split; [exact Hzero|]. split; [exact Hlimit|].
  intros Hopen. unfold process_and_encode_image.
  rewrite Hopen. cbn [lift bind]. rewrite Hlimit. reflexivity.
Qed.

(** The pixel-limit step where it resizes.  For an image of more than
    [max_pixels] pixels whose computed sides [int(width * scale)] and
    [int(height * scale)], with
    [scale = (max_pixels / (width * height)) ** 0.5], are both at least 1,
    the pixel-limit step resizes to these sides; in float arithmetic of
    relative accuracy [u], with [max_pixels] small against [1 / u]:
    the scale is [sqrt(max_pixels / (width * height))] up to rounding, the
    new dimensions are the integer parts (floors) of the scaled ones, the
    new pixel count is at most [max_pixels], each new dimension is less
    than one pixel (and the rounding) below the exactly scaled one, and so
    the cross product [new_width * height - new_height * width], which is 0
    for equal aspect ratios, is below the longer side (and the rounding). *)
Theorem pixel_limit_downscales_within_budget
  (file_path : string) (img : Image Pixels) (width height max_pixels : Z) :
  size img = (width, height) ->
  (0 < width < 2 ^ 31)%Z -> (0 < height < 2 ^ 31)%Z ->
  (0 < max_pixels)%Z -> (width * height > max_pixels)%Z ->
  0 <= u -> IZR max_pixels * (1 + u) ^ 6 < IZR max_pixels + 1 ->
  let scale := scale_factor (F := F) max_pixels (width * height) in
  let sigma := exact_scale max_pixels (width * height) in
  let new_width := trunc_int (mul_int width scale) in
  let new_height := trunc_int (mul_int height scale) in
  let tol := (1 + u) ^ 3 - (1 - u) ^ 3 in
  (1 <= new_width)%Z -> (1 <= new_height)%Z ->
  pixel_limit (F := F) file_path img max_pixels =
    ([LResized (basename file_path) new_width new_height],
     Ok (resized img (new_width, new_height)))
  /\ Rabs (val scale - sigma) <= (2 * u + u * u) * sigma
  /\ new_width = Int_part (val (mul_int width scale))
  /\ new_height = Int_part (val (mul_int height scale))
  /\ (0 <= new_width)%Z /\ (0 <= new_height)%Z
  /\ (new_width * new_height <= max_pixels)%Z
  /\ (1 - u) ^ 3 * (IZR width * sigma) - 1 < IZR new_width
        <= (1 + u) ^ 3 * (IZR width * sigma)
  /\ (1 - u) ^ 3 * (IZR height * sigma) - 1 < IZR new_height
        <= (1 + u) ^ 3 * (IZR height * sigma)
  /\ Rabs (IZR new_width * IZR height - IZR new_height * IZR width)
        < IZR (Z.max width height)
          + tol * (IZR width * IZR height * sigma).
Proof.
  intros Hsize Hw Hh HM Hgt Hu0 Hsmall scale sigma new_width new_height tol
    Hside_w Hside_h.
  assert (HMr : 1 <= IZR max_pixels) by (apply IZR_le; lia).
  assert (Hu6 : (1 + u) ^ 6 <= 2).
  { set (E := (1 + u) ^ 6) in *. assert (0 <= E) by (unfold E; nra). nra. }
  assert (Hu : 0 <= u <= 1) by nra.
  assert (HMcur : (0 < max_pixels < width * height)%Z) by lia.
  assert (Hcur : (width * height < 2 ^ 62)%Z) by nia.
  destruct (exact_scale_facts _ _ HMcur) as [[Hs0 Hs1] Hss].
  fold sigma in Hs0, Hs1, Hss.
  destruct (scaled_dim_bounds width _ _ Hw HMcur Hcur Hu0 Hu6)
    as [Hxlo [Hxhi Hx0]].
  destruct (scaled_dim_bounds height _ _ Hh HMcur Hcur Hu0 Hu6)
    as [Hylo [Hyhi Hy0]].
  fold scale sigma in Hxlo, Hxhi, Hx0, Hylo, Hyhi, Hy0.
  assert (Hnw : new_width = Int_part (val (mul_int width scale)))
    by (apply trunc_int_ok; exact Hx0).
  assert (Hnh : new_height = Int_part (val (mul_int height scale)))
    by (apply trunc_int_ok; exact Hy0).
  destruct (Int_part_bounds _ Hx0) as [Hiw0 [Hiwlo Hiwhi]].
  destruct (Int_part_bounds _ Hy0) as [Hih0 [Hihlo Hihhi]].
  rewrite <- Hnw in Hiw0, Hiwlo, Hiwhi.
  rewrite <- Hnh in Hih0, Hihlo, Hihhi.
  set (X := val (mul_int width scale)) in *.
  set (Y := val (mul_int height scale)) in *.
  assert (Hwr : 0 < IZR width) by (apply IZR_lt; lia).
  assert (Hhr : 0 < IZR height) by (apply IZR_lt; lia).
  assert (Hnwr : 0 <= IZR new_width) by (apply IZR_le; lia).
  assert (Hnhr : 0 <= IZR new_height) by (apply IZR_le; lia).
  assert (Harea : IZR width * sigma * (IZR height * sigma) = IZR max_pixels).
  { replace (IZR width * sigma * (IZR height * sigma))
      with (IZR width * IZR height * (sigma * sigma)) by ring.
    rewrite Hss, mult_IZR. field. lra. }
  repeat split.
  - rewrite (pixel_limit_resize_step file_path img width height max_pixels
               new_width new_height Hsize ltac:(lia) eq_refl).
    now rewrite resize_positive.
  - apply Rabs_le.
    pose proof (scale_factor_bounds _ _ HMcur Hcur Hu) as [Hlo Hhi].
    fold scale sigma in Hlo, Hhi. nra.
  - exact Hnw.
  - exact Hnh.
  - exact Hiw0.
  - exact Hih0.
  - apply Z.lt_succ_r. apply lt_IZR.
    rewrite mult_IZR, succ_IZR.
    assert (HXY : IZR new_width * IZR new_height <= X * Y) by nra.
    assert (Hprod : X * Y <=
              (1 + u) ^ 3 * (IZR width * sigma)
              * ((1 + u) ^ 3 * (IZR height * sigma))).
    { apply Rmult_le_compat; assumption. }
    replace ((1 + u) ^ 3 * (IZR width * sigma)
             * ((1 + u) ^ 3 * (IZR height * sigma)))
      with ((1 + u) ^ 6 * (IZR width * sigma * (IZR height * sigma)))
      in Hprod by ring.
    rewrite Harea in Hprod. lra.
  - lra.
  - lra.
  - lra.
  - lra.
  - assert (Hmaxw : IZR width <= IZR (Z.max width height))
      by (apply IZR_le; lia).
    assert (Hmaxh : IZR height <= IZR (Z.max width height))
      by (apply IZR_le; lia).
    assert (Hd3 : 0 <= (1 - u) ^ 3) by (apply pow_le; lra).
    assert (Hwh : 0 < IZR width * IZR height) by nra.
    assert (HXh_hi : X * IZR height
              <= (1 + u) ^ 3 * (IZR width * IZR height * sigma)) by nra.
    assert (HXh_lo : (1 - u) ^ 3 * (IZR width * IZR height * sigma)
              <= X * IZR height) by nra.
    assert (HYw_hi : Y * IZR width
              <= (1 + u) ^ 3 * (IZR width * IZR height * sigma)) by nra.
    assert (HYw_lo : (1 - u) ^ 3 * (IZR width * IZR height * sigma)
              <= Y * IZR width) by nra.
    unfold tol. apply Rabs_def1; nra.
Qed.

End Resize.


Section ResizeSkipped.

Context {F : Type} {PF : PyFloat F} {P : Pillow}.

(** C5: an image of at most [max_pixels] pixels passes the pixel-limit step
    as it is (same size, nothing resampled, nothing printed), and the mode
    step that follows keeps the size too. *)
Theorem pixel_limit_keeps_small_image
  (file_path : string) (img : Image Pixels) (width height max_pixels : Z) :
  size img = (width, height) ->
  width * height <= max_pixels ->
  pixel_limit (F := F) file_path img max_pixels = ([], Ok img)
  /\ size (normalize_mode img) = (width, height).
Proof.
  intros Hsize Hle. split.
  - unfold pixel_limit. rewrite Hsize.
    destruct (Z.gtb_spec (width * height) max_pixels) as [Hgt|_]; [lia|].
    reflexivity.
  - unfold normalize_mode.
    destruct (string_in (mode img) ["RGBA"; "P"]); exact Hsize.
Qed.

End ResizeSkipped.

Lemma pixel_limit_keeps_small_image_witness :
  pixel_limit (F := float) (H := oversize_codec)
    "holiday.jpg" photo default_max_pixels = ([], Ok photo)
  /\ size (normalize_mode (H := oversize_codec) photo) = (4000, 3000).
Proof.
  apply (pixel_limit_keeps_small_image (F := float) (P := oversize_codec)
           "holiday.jpg" photo 4000 3000 default_max_pixels).
  - reflexivity.
  - vm_compute. discriminate.
Defined.

Section Scenario.

Context {F : Type} {PF : PyFloat F} {u : R} {FA : FloatAccuracy F u}.
Context {P : Pillow}.

Local Open Scope R_scope.

Lemma exact_scale_5_6 :
  91287 / 100000 < exact_scale 15000000 18000000 < 91288 / 100000.
Proof.
  destruct (exact_scale_facts 15000000 18000000 ltac:(lia)) as [[Hs0 _] Hss].
  set (s := exact_scale 15000000 18000000) in *.
  assert (Hsq : s * s = 5 / 6) by (rewrite Hss; field).
  split; nra.
Qed.

Lemma scenario_scaled_size :
  0 <= u <= 1 / 1000000 ->
  9128 / 10000 < val (scale_factor (F := F) 15000000 18000000) < 9130 / 10000
  /\ scaled_size (F := F) 6000 3000 15000000 = (5477, 2738)%Z.
Proof.
  intros [Hu0 Hu1].
  pose proof exact_scale_5_6 as [Hslo Hshi].
  assert (Hu : 0 <= u <= 1) by lra.
  assert (He3 : (1 + u) ^ 3 <= 1 + 4 / 1000000) by nra.
  assert (Hd3 : 1 - 4 / 1000000 <= (1 - u) ^ 3) by nra.
  assert (Hu6 : (1 + u) ^ 6 <= 2).
  { replace ((1 + u) ^ 6) with ((1 + u) ^ 3 * (1 + u) ^ 3) by ring.
    assert (0 <= (1 + u) ^ 3) by (apply pow_le; lra). nra. }
  pose proof (scale_factor_bounds (F := F) 15000000 18000000
                ltac:(lia) ltac:(lia) Hu) as [Hlo Hhi].
  destruct (scaled_dim_bounds (F := F) 6000 15000000 18000000
              ltac:(lia) ltac:(lia) ltac:(lia) Hu0 Hu6) as [Hxlo [Hxhi Hx0]].
  destruct (scaled_dim_bounds (F := F) 3000 15000000 18000000
              ltac:(lia) ltac:(lia) ltac:(lia) Hu0 Hu6) as [Hylo [Hyhi Hy0]].
  set (sg := exact_scale 15000000 18000000) in *.
  set (scale := scale_factor (F := F) 15000000 18000000) in *.
  assert (Hw : trunc_int (mul_int 6000 scale) = 5477%Z).
  { rewrite (trunc_int_ok _ Hx0). symmetry. apply Int_part_spec.
    set (X := val (mul_int 6000 scale)) in *. split; nra. }
  assert (Hh : trunc_int (mul_int 3000 scale) = 2738%Z).
  { rewrite (trunc_int_ok _ Hy0). symmetry. apply Int_part_spec.
    set (Y := val (mul_int 3000 scale)) in *. split; nra. }
  split; [split; nra|].
  unfold scaled_size. change (6000 * 3000)%Z with 18000000%Z.
  fold scale. now rewrite Hw, Hh.
Qed.

(** C4: a 6000 x 3000 image (18,000,000 pixels) under
    [max_pixels = 15000000] is scaled by a factor between 0.9128 and 0.9130
    and resized to exactly 5477 x 2738, at any float accuracy up to one part
    in a million: [int()] cuts 2738.6 down to 2738, one pixel below the
    rounded 2739. *)
Theorem scenario_6000x3000_resized_5477x2738
  (file_path : string) (img : Image Pixels) :
  size img = (6000, 3000)%Z ->
  0 <= u <= 1 / 1000000 ->
  (6000 * 3000 = 18000000)%Z
  /\ 9128 / 10000 < val (scale_factor (F := F) 15000000 18000000)
       < 9130 / 10000
  /\ pixel_limit (F := F) file_path img 15000000 =
       ([LResized (basename file_path) 5477 2738],
        Ok (resized img (5477, 2738)%Z))
  /\ (Z.abs (5477 - 5477) <= 1 /\ Z.abs (2738 - 2739) <= 1)%Z.
Proof.
  intros Hsize Hu.
  destruct (scenario_scaled_size Hu) as [Hscale Hscaled].
  split; [reflexivity|]. split; [exact Hscale|]. split; [|split; cbn; lia].
  rewrite (pixel_limit_resize_step file_path img 6000 3000 15000000
             5477 2738 Hsize ltac:(lia) Hscaled).
  now rewrite resize_positive by lia.
Qed.

End Scenario.

Lemma thin_strip_resize_raises_value_error_witness :
  15000001 * 1 > default_max_pixels
  /\ (fst (scaled_size (F := R) 15000001 1 default_max_pixels) = 0
      \/ snd (scaled_size (F := R) 15000001 1 default_max_pixels) = 0)
  /\ pixel_limit (F := R) (H := panorama_codec)
       "pics/pano.png" panorama default_max_pixels
     = ([], Raise (ValueError "height and width must be > 0"))
  /\ (image_open (Pillow := panorama_codec) "pics/pano.png" = Ok panorama ->
      process_and_encode_image (F := R) (H := panorama_codec)
        "pics/pano.png" default_max_pixels default_max_bytes
      = ([], Raise (ValueError "height and width must be > 0"))).
Proof.
  assert (Hu : (0 <= binary64_roundoff)%R)
    by (unfold binary64_roundoff; lra).
  apply (thin_strip_resize_raises_value_error
           (F := R) (FA := exact_accuracy binary64_roundoff Hu)
           (P := panorama_codec)
           "pics/pano.png" panorama 15000001 1
           default_max_pixels default_max_bytes).
  - reflexivity.
  - lia.
  - lia.
  - reflexivity.
  - left. reflexivity.
  - exact Hu.
  - unfold binary64_roundoff. lra.
  - change (Z.max 15000001 1) with 15000001. unfold binary64_roundoff. lra.
Defined.

Lemma pixel_limit_downscales_within_budget_witness :
  pixel_limit (F := R) (H := oversize_codec)
    "big.jpg" (mkImage (6000, 3000) "RGB" tt) 15000000 =
  ([LResized "big.jpg" 5477 2738],
   Ok (resized (H := oversize_codec) (mkImage (6000, 3000) "RGB" tt)
         (5477, 2738)))
  /\ 5477 * 2738 <= 15000000.
Proof.
  assert (Hu : (0 <= binary64_roundoff)%R)
    by (unfold binary64_roundoff; lra).
  assert (Hsides :
            scaled_size (F := R) 6000 3000 15000000 = (5477, 2738)).
  { apply (scenario_scaled_size
             (F := R) (FA := exact_accuracy binary64_roundoff Hu)).
    unfold binary64_roundoff. lra. }
  assert (Hw : trunc_int (mul_int 6000
                       (scale_factor (F := R) 15000000 (6000 * 3000)))
               = 5477) by exact (f_equal fst Hsides).
  assert (Hh : trunc_int (mul_int 3000
                       (scale_factor (F := R) 15000000 (6000 * 3000)))
               = 2738) by exact (f_equal snd Hsides).
  pose proof (pixel_limit_downscales_within_budget
                (F := R) (FA := exact_accuracy binary64_roundoff Hu)
                (P := oversize_codec)
                "big.jpg" (mkImage (6000, 3000) "RGB" tt)
                6000 3000 15000000
                eq_refl ltac:(lia) ltac:(lia) ltac:(lia) ltac:(lia)
                Hu ltac:(unfold binary64_roundoff; lra)) as Hfit.
  cbv zeta in Hfit. rewrite Hw, Hh in Hfit.
  specialize (Hfit ltac:(lia) ltac:(lia)).
  split; [exact (proj1 Hfit)|].
  exact (proj1 (proj2 (proj2 (proj2 (proj2 (proj2 (proj2 Hfit))))))).
Defined.

Lemma scenario_6000x3000_resized_5477x2738_witness :
  pixel_limit (F := R) (H := oversize_codec)
    "big.jpg" (mkImage (6000, 3000) "RGB" tt) 15000000 =
  ([LResized "big.jpg" 5477 2738],
   Ok (resized (H := oversize_codec) (mkImage (6000, 3000) "RGB" tt)
         (5477, 2738))).
Proof.
  assert (Hu : (0 <= binary64_roundoff)%R)
    by (unfold binary64_roundoff; lra).
  pose proof (scenario_6000x3000_resized_5477x2738
                (F := R) (FA := exact_accuracy binary64_roundoff Hu)
                (P := oversize_codec)
                "big.jpg" (mkImage (6000, 3000) "RGB" tt)
                eq_refl ltac:(unfold binary64_roundoff; lra)) as Hscen.
  exact (proj1 (proj2 (proj2 Hscen))).
Defined.


(** ** Base64 round trip (claim C10) *)

Section Base64Facts.

Import Base64.
Local Open Scope N_scope.

Lemma b64_index_char (i : N) : i < 64 -> b64_index (b64_char i) = Some i.
Proof.
  intros Hi.
  assert (Hn : exists n : nat, (n < 64)%nat /\ i = N.of_nat n).
  { exists (N.to_nat i). split; lia. }
  destruct Hn as [n [Hn ->]].
  do 64 (destruct n as [|n]; [reflexivity|]). lia.
Qed.

Lemma b64_char_not_pad (i : N) : i < 64 -> Ascii.eqb (b64_char i) "=" = false.
Proof.
  intros Hi. destruct (Ascii.eqb_spec (b64_char i) "=") as [Heq|]; [|reflexivity].
  pose proof (b64_index_char i Hi) as Hidx. rewrite Heq in Hidx. discriminate.
Qed.

Lemma sextet_lt (k n : N) : sextet k n < 64.
Proof. unfold sextet. apply N.mod_lt. discriminate. Qed.

Lemma byte_of_to_N (b : Byte.byte) : byte_of (Byte.to_N b) = b.
Proof. unfold byte_of. now rewrite Byte.of_to_N. Qed.

Lemma to_N_lt (b : Byte.byte) : Byte.to_N b < 256.
Proof. pose proof (Byte.to_N_bounded b). lia. Qed.

Lemma group_digits (a b c : N) :
  a < 256 -> b < 256 -> c < 256 ->
  let n := group a b c in
  sextet 0 n * 262144 + sextet 1 n * 4096 + sextet 2 n * 64 + sextet 3 n = n.
Proof.
  intros Ha Hb Hc n. subst n. unfold sextet, group.
  change (64 ^ (3 - 0)) with 262144. change (64 ^ (3 - 1)) with 4096.
  change (64 ^ (3 - 2)) with 64. change (64 ^ (3 - 3)) with 1.
  rewrite N.div_1_r.
  zify. Z.to_euclidean_division_equations. lia.
Qed.

Lemma group_bytes (a b c : N) :
  a < 256 -> b < 256 -> c < 256 ->
  let n := group a b c in
  n / 65536 = a /\ (n / 256) mod 256 = b /\ n mod 256 = c.
Proof.
  intros Ha Hb Hc n. subst n. unfold group.
  zify. Z.to_euclidean_division_equations. lia.
Qed.

Lemma group_low_digits (a b : N) :
  a < 256 -> b < 256 ->
  sextet 3 (group a b 0) = 0 /\ sextet 2 (group a 0 0) = 0.
Proof.
  intros Ha Hb. unfold sextet, group.
  change (64 ^ (3 - 2)) with 64. change (64 ^ (3 - 3)) with 1.
  rewrite N.div_1_r.
  zify. Z.to_euclidean_division_equations. lia.
Qed.

Lemma list_ind3 {A : Type} (Q : list A -> Prop) :
  Q [] -> (forall a, Q [a]) -> (forall a b, Q [a; b]) ->
  (forall a b c rest, Q rest -> Q (a :: b :: c :: rest)) ->
  forall l, Q l.
Proof.
  intros H0 H1 H2 H3 l.
  assert (Hall : Q l /\ (forall a, Q (a :: l)) /\ (forall a b, Q (a :: b :: l))).
  { induction l as [|x l [IH0 [IH1 IH2]]].
    - repeat split; auto.
    - repeat split; auto. }
  exact (proj1 Hall).
Qed.

(** Decoding the text that [b64encode] produces gives the bytes back. *)
Lemma b64decode_b64encode (data : list Byte.byte) :
  b64decode (b64encode data) = Some data.
Proof.
  induction data as [|a|a b|a b c rest IH] using list_ind3.
  - reflexivity.
  - pose proof (to_N_lt a) as Ha.
    cbn [b64encode b64decode].
    rewrite !b64_index_char by apply sextet_lt. cbn [bind_opt].
    change (Ascii.eqb "=" "=") with true. cbv iota.
    pose proof (group_digits (Byte.to_N a) 0 0 Ha ltac:(lia) ltac:(lia)) as Hd.
    pose proof (group_low_digits (Byte.to_N a) 0 Ha ltac:(lia)) as [Hd3 Hd2].
    pose proof (group_bytes (Byte.to_N a) 0 0 Ha ltac:(lia) ltac:(lia)) as [Hb0 _].
    cbv zeta in Hd, Hb0.
    rewrite Hd2, Hd3 in Hd.
    replace (sextet 0 (group (Byte.to_N a) 0 0) * 262144
             + sextet 1 (group (Byte.to_N a) 0 0) * 4096)
      with (group (Byte.to_N a) 0 0) by lia.
    now rewrite Hb0, byte_of_to_N.
  - pose proof (to_N_lt a) as Ha. pose proof (to_N_lt b) as Hb.
    cbn [b64encode b64decode].
    rewrite !b64_index_char by apply sextet_lt. cbn [bind_opt].
    change (Ascii.eqb "=" "=") with true. cbv iota.
    rewrite ?b64_char_not_pad by apply sextet_lt.
    rewrite ?b64_index_char by apply sextet_lt. cbn [bind_opt].
    pose proof (group_digits (Byte.to_N a) (Byte.to_N b) 0 Ha Hb ltac:(lia)) as Hd.
    pose proof (group_low_digits (Byte.to_N a) (Byte.to_N b) Ha Hb) as [Hd3 _].
    pose proof (group_bytes (Byte.to_N a) (Byte.to_N b) 0 Ha Hb ltac:(lia))
      as [Hb0 [Hb1 _]].
    cbv zeta in Hd, Hb0, Hb1.
    rewrite Hd3, N.add_0_r in Hd. rewrite Hd, Hb0, Hb1.
    now rewrite !byte_of_to_N.
  - pose proof (to_N_lt a) as Ha. pose proof (to_N_lt b) as Hb.
    pose proof (to_N_lt c) as Hc.
    cbn [b64encode b64decode].
    rewrite !b64_index_char by apply sextet_lt. cbn [bind_opt].
    rewrite ?b64_char_not_pad by apply sextet_lt.
    rewrite ?b64_index_char by apply sextet_lt. cbn [bind_opt].
    rewrite IH. cbn [bind_opt].
    pose proof (group_digits _ _ _ Ha Hb Hc) as Hd.
    pose proof (group_bytes _ _ _ Ha Hb Hc) as [Hb0 [Hb1 Hb2]].
    cbv zeta in Hd, Hb0, Hb1, Hb2.
    rewrite Hd, Hb0, Hb1, Hb2.
    now rewrite !byte_of_to_N.
Qed.

End Base64Facts.

Lemma b64encode_samples :
  Base64.b64encode [Byte.x4d; Byte.x61; Byte.x6e] = "TWFu"
  /\ Base64.b64encode [Byte.x4d; Byte.x61] = "TWE="
  /\ Base64.b64encode [Byte.x4d] = "TQ==".
Proof. repeat split. Qed.

Lemma string_drop_app (p s : string) :
  string_drop (String.length p) (p ++ s)%string = s.
Proof. induction p as [|c p IH]; [reflexivity | exact IH]. Qed.

Section Payload.

Context {F : Type} {PF : PyFloat F} {P : Pillow}.

(** C10: whatever the file, a payload that [process_and_encode_image]
    returns is the literal prefix [data:image/jpeg;base64,] followed by the
    base64 text of the bytes the JPEG encoder wrote at the loop's last
    quality, and decoding what follows the prefix gives those bytes back. *)
Theorem payload_is_jpeg_data_url
  (file_path : string) (max_pixels max_bytes : Z)
  (out : list Line) (payload : string) :
  process_and_encode_image (F := F) file_path max_pixels max_bytes
    = (out, Ok payload) ->
  exists (img : Image Pixels) (buffer : list Byte.byte),
    save_jpeg img (last (save_qualities (F := F) img max_bytes) 95)
      = Ok buffer
    /\ payload = ("data:image/jpeg;base64," ++ Base64.b64encode buffer)%string
    /\ Base64.b64decode
         (string_drop (String.length "data:image/jpeg;base64,") payload)
       = Some buffer.
Proof.
  unfold process_and_encode_image, bind, lift, ret. intros Hrun.
  destruct (image_open file_path) as [img0|e]; [|discriminate].
  destruct (pixel_limit file_path img0 max_pixels) as [out1 [img1|e]];
    [|discriminate].
  pose proof (compress_loop_last_save (F := F)
                (normalize_mode img1) max_bytes 95) as Hlast.
  destruct (snd (compress_loop (F := F) (normalize_mode img1) max_bytes 95))
    as [buffer|e]; [|discriminate].
  injection Hrun as _ <-.
  exists (normalize_mode img1), buffer.
  split; [symmetry; exact Hlast|]. split; [reflexivity|].
  change (Base64.b64decode
            (string_drop (String.length data_url_prefix)
               (data_url_prefix ++ Base64.b64encode buffer)%string)
          = Some buffer).
  rewrite string_drop_app. apply b64decode_b64encode.
Qed.

End Payload.

Lemma payload_is_jpeg_data_url_witness :
  exists (img : Image unit) (buffer : list Byte.byte),
    save_jpeg (H := album) img
      (last (save_qualities (F := float) (H := album) img default_max_bytes) 95)
      = Ok buffer
    /\ "data:image/jpeg;base64,/9j/2Q=="
       = ("data:image/jpeg;base64," ++ Base64.b64encode buffer)%string
    /\ Base64.b64decode
         (string_drop (String.length "data:image/jpeg;base64,")
            "data:image/jpeg;base64,/9j/2Q==")
       = Some buffer.
Proof.
  apply (payload_is_jpeg_data_url (F := float) (P := album)
           "pics/logo.png" default_max_pixels default_max_bytes []).
  vm_compute. reflexivity.
Defined.

(** ** The colour mode (claim C6) *)

Section Mode.

Context {P : Pillow}.

Lemma normalize_mode_rgba_p (img : Image Pixels) :
  mode img = "RGBA" \/ mode img = "P" ->
  normalize_mode img = convert img "RGB"
  /\ mode (normalize_mode img) = "RGB"
  /\ forall quality : Z,
       save_jpeg (normalize_mode img) quality
       = jpeg_encode (normalize_mode img) quality.
Proof.
  intros Hmode. unfold normalize_mode.
  assert (Hin : string_in (mode img) ["RGBA"; "P"] = true)
    by (destruct Hmode as [-> | ->]; reflexivity).
  rewrite Hin. repeat split.
Qed.

Lemma normalize_mode_other (img : Image Pixels) :
  mode img <> "RGBA" -> mode img <> "P" -> normalize_mode img = img.
Proof.
  intros Hrgba Hp. unfold normalize_mode, string_in. cbn [existsb].
  destruct (String.eqb_spec (mode img) "RGBA"); [contradiction|].
  destruct (String.eqb_spec (mode img) "P"); [contradiction|].
  reflexivity.
Qed.

End Mode.

(** C6 on a grey picture with alpha (mode [LA], as Pillow opens a
    grey-alpha PNG): the mode has an alpha band, the mode step leaves it as
    it is, no three-channel model results, the JPEG plugin refuses the mode
    at every quality, and [process_and_encode_image] ends in that
    [OSError]. *)
Theorem grey_alpha_image_is_not_converted :
  let img := mkImage (Pixels := unit) (4, 4) "LA" tt in
  image_open (Pillow := album) "pics/scan.png" = Ok img
  /\ has_alpha_channel (mode img) = true
  /\ normalize_mode (H := album) img = img
  /\ string_in (mode (normalize_mode (H := album) img)) three_channel_modes
     = false
  /\ (forall quality : Z,
        save_jpeg (H := album) (normalize_mode (H := album) img) quality
        = Raise (OSError "cannot write mode LA as JPEG"))
  /\ process_and_encode_image (F := float) (H := album)
       "pics/scan.png" default_max_pixels default_max_bytes
     = ([], Raise (OSError "cannot write mode LA as JPEG")).
Proof.
  cbv zeta. repeat split.
Qed.

(** ** The file filter (claim C9) *)

Lemma endswith_spec (s suffix : string) :
  endswith s suffix = true <-> exists stem : string, s = (stem ++ suffix)%string.
Proof.
  split.
  - induction s as [|c s IH]; cbn [endswith].
    + destruct (String.eqb_spec "" suffix) as [<-|]; [|discriminate].
      intros _. now exists "".
    + destruct (String.eqb_spec (String c s) suffix) as [<-|_].
      * intros _. now exists "".
      * intros Hs. destruct (IH Hs) as [stem ->]. now exists (String c stem).
  - intros [stem ->]. induction stem as [|c stem IH].
    + cbn [append]. destruct suffix; cbn [endswith]; now rewrite String.eqb_refl.
    + cbn [append endswith]. rewrite IH.
      now destruct (String.eqb (String c (stem ++ suffix)) suffix).
Qed.

Lemma eligible_spec (filename : string) :
  eligible filename = true <->
  exists stem ext : string,
    In ext [".jpg"; ".jpeg"; ".png"; ".webp"]
    /\ lower filename = (stem ++ ext)%string.
Proof.
  unfold eligible, endswith_any. rewrite existsb_exists. split.
  - intros [ext [Hin Hends]]. apply endswith_spec in Hends as [stem Hstem].
    now exists stem, ext.
  - intros [stem [ext [Hin Hlow]]]. exists ext. split; [exact Hin|].
    apply endswith_spec. now exists stem.
Qed.

Section Filter.

Context {F : Type} {PF : PyFloat F}.
Context {P : Pillow} {V : Voyage} {C : Collection}.

(** C9: a file is eligible exactly when its lower-cased name ends in one of
    [.jpg], [.jpeg], [.png], [.webp] (so [PHOTO.JPG] is); the loop runs the
    body of the [try] on an eligible file, on the path joined from the
    directory and the name, and passes over any other file without a call,
    a line or a change to the collection. *)
Theorem extension_filter_ignores_case
  (directory_path filename : string) (rest : list string) (docs : list Py) :
  (eligible filename = true <->
   exists stem ext : string,
     In ext [".jpg"; ".jpeg"; ".png"; ".webp"]
     /\ lower filename = (stem ++ ext)%string)
  /\ eligible "PHOTO.JPG" = true
  /\ (eligible filename = true ->
      ingest_files (F := F) directory_path (filename :: rest) docs =
      match ingest_try (F := F) filename
              (path_join directory_path filename) docs with
      | (out, docs', Ok _) =>
          let '(out', docs'', r) :=
            ingest_files (F := F) directory_path rest docs' in
          (out ++ out', docs'', r)
      | (out, docs', Raise e) =>
          if isinstance_OSError e then
            let '(out', docs'', r) :=
              ingest_files (F := F) directory_path rest docs' in
            (out ++ [LFailed filename e] ++ out', docs'', r)
          else (out, docs', Raise e)
      end)
  /\ (eligible filename = false ->
      ingest_files (F := F) directory_path (filename :: rest) docs =
      ingest_files (F := F) directory_path rest docs).
Proof.
  split; [apply eligible_spec|]. split; [reflexivity|].
  split; intros Hel; cbn [ingest_files]; rewrite Hel; reflexivity.
Qed.

End Filter.

(** ** Failures during ingestion (claim C7) *)

Section Failures.

Context {F : Type} {PF : PyFloat F}.
Context {P : Pillow} {V : Voyage} {C : Collection}.

Lemma ingest_try_raise_keeps_docs
  (filename image_path : string) (docs docs' : list Py)
  (out : list Line) (e : Exn) :
  ingest_try (F := F) filename image_path docs = (out, docs', Raise e) ->
  docs' = docs.
Proof.
  unfold ingest_try, insert_one.
  destruct (process_and_encode_image image_path default_max_pixels
              default_max_bytes) as [out0 [b64|e0]];
    [|intros [= _ <- _]; reflexivity].
  destruct (multimodal_embed [multimodal_input b64] embed_model document_intent)
    as [embeddings|e1]; [|intros [= _ <- _]; reflexivity].
  destruct (first_embedding embeddings) as [embedding|e2];
    [|intros [= _ <- _]; reflexivity].
  destruct (insert_error docs (picture_doc filename embedding image_path));
    [intros [= _ <- _]; reflexivity | discriminate].
Qed.

(** C7, as the code has it.  For an eligible file, whichever step of the
    [try] raises, the encoding of the picture ([Image.open], the resize,
    the saves), the embedding call or the insert: an exception that is an
    [OSError] (a missing or unreadable file, an image that cannot be
    identified, a mode the encoder cannot write) is caught, reported with
    [Failed], and the loop goes on with the files that follow; any other
    exception leaves the function, so that no later file is looked at.  The
    line is drawn by the class of the exception, not by the call that
    raised it. *)
Theorem oserror_is_caught_other_failures_abort
  (directory_path filename : string) (rest : list string) (docs : list Py) :
  eligible filename = true ->
  let image_path := path_join directory_path filename in
  let go_on (out : list Line) (e : Exn) : Run unit :=
    let '(out', docs', r) := ingest_files (F := F) directory_path rest docs in
    (out ++ [LFailed filename e] ++ out', docs', r) in
  (forall (out : list Line) (e : Exn),
      process_and_encode_image (F := F) image_path
        default_max_pixels default_max_bytes = (out, Raise e) ->
      ingest_files (F := F) directory_path (filename :: rest) docs
      = if isinstance_OSError e then go_on out e else (out, docs, Raise e))
  /\ (forall (out : list Line) (b64_image : string) (e : Exn),
      process_and_encode_image (F := F) image_path
        default_max_pixels default_max_bytes = (out, Ok b64_image) ->
      multimodal_embed [multimodal_input b64_image] embed_model document_intent
        = Raise e ->
      ingest_files (F := F) directory_path (filename :: rest) docs
      = if isinstance_OSError e then go_on out e else (out, docs, Raise e))
  /\ (forall (out : list Line) (b64_image : string)
        (embedding : Embedding) (others : list Embedding) (e : Exn),
      process_and_encode_image (F := F) image_path
        default_max_pixels default_max_bytes = (out, Ok b64_image) ->
      multimodal_embed [multimodal_input b64_image] embed_model document_intent
        = Ok (embedding :: others) ->
      insert_error docs (picture_doc filename embedding image_path) = Some e ->
      ingest_files (F := F) directory_path (filename :: rest) docs
      = if isinstance_OSError e then go_on out e else (out, docs, Raise e))
  /\ (forall e : Exn,
      image_open image_path = Raise e ->
      process_and_encode_image (F := F) image_path
        default_max_pixels default_max_bytes = ([], Raise e)).
Proof.
  intros Hel image_path go_on. subst go_on. cbv beta.
  repeat split.
  - intros out e Hrun.
    cbn [ingest_files]. rewrite Hel. unfold ingest_try.
    fold image_path. rewrite Hrun. reflexivity.
  - intros out b64 e Hrun Hembed.
    cbn [ingest_files]. rewrite Hel. unfold ingest_try.
    fold image_path. rewrite Hrun, Hembed. reflexivity.
  - intros out b64 embedding others e Hrun Hembed Hins.
    cbn [ingest_files]. rewrite Hel. unfold ingest_try, insert_one.
    fold image_path. rewrite Hrun, Hembed. cbn [first_embedding].
    rewrite Hins. reflexivity.
  - intros e Hopen. unfold process_and_encode_image. rewrite Hopen.
    reflexivity.
Qed.

End Failures.

(** The picture in a mode the encoder cannot write is reported, and the
    picture after it is still stored. *)
Lemma oserror_is_caught_other_failures_abort_witness :
  eligible "scan.png" = true
  /\ ingest_files (F := float) (H := album) (H0 := constant_embedder)
       (H1 := sample_store) "pics" ["scan.png"; "cat.jpg"] []
     = ([LFailed "scan.png" (OSError "cannot write mode LA as JPEG");
         LIndexed "cat.jpg"],
        [picture_doc "cat.jpg" [PrimFloat.one; PrimFloat.zero] "pics/cat.jpg"],
        Ok tt).
Proof.
  split; [reflexivity|].
  rewrite (proj1 (oserror_is_caught_other_failures_abort
                    (F := float) (P := album) (V := constant_embedder)
                    (C := sample_store)
                    "pics" "scan.png" ["cat.jpg"] [] eq_refl)
             [] (OSError "cannot write mode LA as JPEG") eq_refl).
  reflexivity.
Defined.

(** The scenario of one valid [.jpg] and one corrupt [.png]: one record is
    inserted and one failure is reported. *)
Lemma ingest_one_valid_one_corrupt :
  ingest_pictures (F := float) (H := album) (H0 := constant_embedder)
    (H1 := sample_store) (H2 := pics) "pics" []
  = ([LIndexed "cat.jpg";
      LFailed "bad.png" (UnidentifiedImageError "cannot identify image file")],
     [picture_doc "cat.jpg" [PrimFloat.one; PrimFloat.zero] "pics/cat.jpg"],
     Ok tt).
Proof. vm_compute. reflexivity. Qed.

(** C7 fails as stated: an [OSError] raised by the embedding call (here for
    the valid picture) is caught like a file failure, and the run goes on
    to the next file and ends normally. *)
Lemma embedding_oserror_does_not_abort :
  process_and_encode_image (F := float) (H := album)
    "pics/cat.jpg" default_max_pixels default_max_bytes
  = ([], Ok "data:image/jpeg;base64,/9j/2Q==")
  /\ multimodal_embed (Voyage := offline_embedder)
       [multimodal_input "data:image/jpeg;base64,/9j/2Q=="]
       embed_model document_intent
     = Raise no_ca_bundle
  /\ ingest_pictures (F := float) (H := album) (H0 := offline_embedder)
       (H1 := sample_store) (H2 := pics) "pics" []
     = ([LFailed "cat.jpg" no_ca_bundle;
         LFailed "bad.png"
           (UnidentifiedImageError "cannot identify image file")],
        [], Ok tt).
Proof. repeat split; vm_compute; reflexivity. Qed.

(** ** The search (claim C8) *)

Section Search.

Context {V : Voyage} {C : Collection}.

Lemma format_4f_number (score : Py) :
  is_number score = true -> format_4f score = Ok score.
Proof.
  destruct score; cbn; try (reflexivity || discriminate).
  now intros ->.
Qed.

Lemma print_matches_ok (matches : list Py) :
  (forall m : Py, In m matches ->
     exists file_name score : Py,
       getitem m "file_name" = Ok file_name
       /\ getitem m "score" = Ok score /\ is_number score = true) ->
  snd (print_matches matches) = Ok tt.
Proof.
  induction matches as [|m matches IH]; intros Hfields; [reflexivity|].
  destruct (Hfields m (or_introl eq_refl)) as [name [score [Hn [Hs Hnum]]]].
  cbn [print_matches]. rewrite Hn, Hs. cbn [lift bind print].
  rewrite (format_4f_number _ Hnum). cbn [lift bind print].
  specialize (IH (fun m' Hin => Hfields m' (or_intror Hin))).
  destruct (print_matches matches) as [out r]. cbn [snd] in IH. subst r.
  reflexivity.
Qed.

(** C8: the query is embedded with the [query] input type, which is not the
    [document] input type of the ingestion; the pipeline asks for a vector
    search on that embedding with 100 candidates and the given limit, and
    projects the file name and the store's [vectorSearchScore]; when every
    match the store answers carries a file name and a score that is a
    number, as that projection yields them, the answer is returned as it
    is, in its order, however many matches it holds; the limit goes to the
    store unchanged and the function cuts nothing off itself, so the answer
    has at most [limit] results when the store keeps to the limit of the
    search stage. *)
Theorem search_returns_store_ranking
  (query_text : string) (limit : Z) (docs : list Py)
  (query_embedding : Embedding) (others : list Embedding)
  (matches : list Py) :
  multimodal_embed [PList [PStr query_text]] embed_model query_intent
    = Ok (query_embedding :: others) ->
  aggregate docs (search_pipeline query_embedding limit) = Ok matches ->
  (forall m : Py, In m matches ->
     exists file_name score : Py,
       getitem m "file_name" = Ok file_name
       /\ getitem m "score" = Ok score /\ is_number score = true) ->
  snd (search_pictures query_text limit docs) = Ok matches
  /\ (honours_limit -> Z.of_nat (List.length matches) <= limit)
  /\ query_intent <> document_intent
  /\ search_pipeline query_embedding limit =
     [ PDict [("$vectorSearch",
               PDict [("index", PStr "default");
                      ("path", PStr "embedding");
                      ("queryVector", PEmb query_embedding);
                      ("numCandidates", PInt 100);
                      ("limit", PInt limit)])];
       PDict [("$project",
               PDict [("file_name", PInt 1);
                      ("score",
                       PDict [("$meta", PStr "vectorSearchScore")])])] ].
Proof.
  intros Hembed Hagg Hfields.
  split; [|split; [|split; [discriminate | reflexivity]]].
  - unfold search_pictures. rewrite Hembed.
    cbn [lift bind first_embedding]. rewrite Hagg. cbn [lift bind print].
    pose proof (print_matches_ok matches Hfields) as Hprint.
    destruct (print_matches matches) as [out r]. cbn [snd] in Hprint.
    subst r. reflexivity.
  - intros Hlimit.
    apply (Hlimit docs (search_pipeline query_embedding limit)); [exact Hagg|].
    reflexivity.
Qed.

(** What [search_pictures] returns is what the store answered. *)
Lemma search_result_is_store_answer
  (query_text : string) (limit : Z) (docs : list Py)
  (out : list Line) (result : list Py) :
  search_pictures query_text limit docs = (out, Ok result) ->
  exists (query_embedding : Embedding) (others : list Embedding),
    multimodal_embed [PList [PStr query_text]] embed_model query_intent
      = Ok (query_embedding :: others)
    /\ aggregate docs (search_pipeline query_embedding limit) = Ok result.
Proof.
  unfold search_pictures.
  destruct (multimodal_embed [PList [PStr query_text]] embed_model query_intent)
    as [[|v others]|e]; cbn [lift bind first_embedding]; try discriminate.
  destruct (aggregate docs (search_pipeline v limit)) as [matches|e] eqn:Hagg;
    cbn [lift bind print]; [|discriminate].
  destruct (print_matches matches) as [out' [[]|e]]; cbn; [|discriminate].
  intros [= _ <-]. exists v, others. split; [reflexivity | exact Hagg].
Qed.

End Search.

Lemma sample_store_honours_limit : honours_limit (H := sample_store).
Proof.
  intros docs pipeline matches limit Hagg Hlim. cbn in Hagg.
  rewrite Hlim in Hagg.
  destruct (Z.ltb_spec limit 1) as [|Hpos]; [discriminate|].
  injection Hagg as <-. rewrite length_firstn. lia.
Qed.

Lemma search_returns_store_ranking_witness :
  snd (search_pictures (H := constant_embedder) (H0 := sample_store)
         "red car" 1 [])
  = Ok [PDict [("file_name", PStr "cat.jpg"); ("score", PFloat PrimFloat.one)]]
  /\ Z.of_nat 1 <= 1.
Proof.
  pose proof (search_returns_store_ranking
                (V := constant_embedder) (C := sample_store)
                "red car" 1 [] [PrimFloat.one; PrimFloat.zero] []
                [PDict [("file_name", PStr "cat.jpg");
                        ("score", PFloat PrimFloat.one)]]
                eq_refl eq_refl) as Hsearch.
  refine ((fun H => conj (proj1 H)
                      (proj1 (proj2 H) sample_store_honours_limit))
            (Hsearch _)).
  intros m [<- | []].
  exists (PStr "cat.jpg"), (PFloat PrimFloat.one). repeat split.
Defined.

(** * Further properties *)

(** ** The loop only lowers the quality when it has to *)

Section LoopFit.

Context {F : Type} {PF : PyFloat F} {P : Pillow}.

Lemma compress_loop_earlier_saves (img : Image Pixels) (max_bytes quality : Z) :
  Forall (fun q =>
            exists buffer : list Byte.byte,
              save_jpeg img q = Ok buffer
              /\ loop_exit (F := F) (Z.of_nat (List.length buffer)) max_bytes q
                 = false)
         (removelast (fst (compress_loop (F := F) img max_bytes quality))).
Proof.
  funelim (compress_loop (F := F) img max_bytes quality).
  - constructor.
  - constructor.
  - pose proof (compress_loop_nonempty (F := F) img max_bytes (quality - 10))
      as Hne.
    destruct (compress_loop img max_bytes (quality - 10)) as [qs r].
    cbn [fst] in *.
    destruct qs as [|q' qs]; [congruence|].
    change (removelast (quality :: q' :: qs))
      with (quality :: removelast (q' :: qs)).
    constructor; [|exact H].
    exists buffer. split; assumption.
Qed.

Lemma compress_loop_result_fits (img : Image Pixels) (max_bytes quality : Z)
  (buffer : list Byte.byte) :
  snd (compress_loop (F := F) img max_bytes quality) = Ok buffer ->
  loop_exit (F := F) (Z.of_nat (List.length buffer)) max_bytes
    (last (fst (compress_loop (F := F) img max_bytes quality)) quality)
  = true.
Proof.
  funelim (compress_loop (F := F) img max_bytes quality).
  - discriminate.
  - cbn. intros [= <-]. exact Hstop.
  - pose proof (compress_loop_nonempty (F := F) img max_bytes (quality - 10))
      as Hne.
    destruct (compress_loop img max_bytes (quality - 10)) as [qs r].
    cbn [fst snd] in *. intros Hr.
    destruct qs as [|q' qs]; [congruence|].
    change (last (quality :: q' :: qs) quality) with (last (q' :: qs) quality).
    rewrite (last_nonempty_default (q' :: qs) quality (quality - 10))
      by discriminate.
    apply H. exact Hr.
Qed.

(** Every save but the last one wrote a buffer that was over the budget, at
    a quality above 20: the loop goes to a lower quality only after a save
    that did not fit.  In particular a first save that fits is the only
    one, and the picture keeps quality 95. *)
Theorem quality_lowered_only_after_oversize_save
  (img : Image Pixels) (max_bytes : Z) :
  Forall (fun q =>
            20 < q
            /\ exists buffer : list Byte.byte,
                 save_jpeg img q = Ok buffer
                 /\ int_le (Z.of_nat (List.length buffer))
                      (mul_int (F := F) max_bytes lit_0_7) = false)
         (removelast (save_qualities (F := F) img max_bytes))
  /\ (forall buffer : list Byte.byte,
        save_jpeg img 95 = Ok buffer ->
        int_le (Z.of_nat (List.length buffer))
          (mul_int (F := F) max_bytes lit_0_7) = true ->
        compress_loop (F := F) img max_bytes 95 = ([95], Ok buffer)).
Proof.
  split.
  - unfold save_qualities.
    eapply Forall_impl; [|apply compress_loop_earlier_saves].
    intros q [buffer [Hsave Hexit]]. unfold loop_exit in Hexit.
    destruct (orb_false_elim _ _ Hexit) as [Hfit Hq].
    apply Z.leb_gt in Hq. split; [exact Hq|].
    exists buffer. split; assumption.
  - intros buffer Hsave Hfit.
    rewrite compress_loop_step, Hsave. unfold loop_exit. now rewrite Hfit.
Qed.

(** A buffer that the loop returns is within the budget of line 57, or it
    was saved at quality 15, the last quality the loop tries. *)
Theorem returned_buffer_fits_or_quality_15
  (img : Image Pixels) (max_bytes : Z) (buffer : list Byte.byte) :
  snd (compress_loop (F := F) img max_bytes 95) = Ok buffer ->
  int_le (Z.of_nat (List.length buffer)) (mul_int (F := F) max_bytes lit_0_7)
    = true
  \/ last (save_qualities (F := F) img max_bytes) 95 = 15.
Proof.
  intros Hr. pose proof (compress_loop_result_fits _ _ _ _ Hr) as Hexit.
  fold (save_qualities (F := F) img max_bytes) in Hexit.
  unfold loop_exit in Hexit. apply orb_true_iff in Hexit as [Hfit|Hq];
    [left; exact Hfit | right].
  apply Z.leb_le in Hq.
  destruct (save_qualities_prefix (F := F) img max_bytes) as [n [Hn Hqs]].
  rewrite Hqs in Hq |- *.
  assert (Hcases : (n = 1 \/ n = 2 \/ n = 3 \/ n = 4 \/ n = 5 \/ n = 6 \/
                    n = 7 \/ n = 8 \/ n = 9)%nat) by lia.
  repeat (destruct Hcases as [-> | Hcases]); try subst n;
    cbn in Hq |- *; lia.
Qed.

End LoopFit.

Lemma returned_buffer_fits_or_quality_15_witness :
  int_le (F := float) (Z.of_nat (List.length jpeg_stub))
    (mul_int default_max_bytes lit_0_7) = true
  \/ last (save_qualities (F := float) (H := album)
             (mkImage (4, 4) "RGB" tt) default_max_bytes) 95 = 15.
Proof.
  apply (returned_buffer_fits_or_quality_15 (F := float) (P := album)
           (mkImage (4, 4) "RGB" tt) default_max_bytes jpeg_stub).
  vm_compute. reflexivity.
Defined.

(** ** The resize never enlarges, and what it does to thin strips *)

Section ResizeShape.

Context {F : Type} {PF : PyFloat F} {u : R} {FA : FloatAccuracy F u}.
Context {P : Pillow}.

Local Open Scope R_scope.

(** The two products of line 36 and 37 as real numbers. *)
Lemma scaled_size_values (width height max_pixels : Z) :
  (0 < width < 2 ^ 31)%Z -> (0 < height < 2 ^ 31)%Z ->
  (0 < max_pixels < width * height)%Z ->
  0 <= u -> (1 + u) ^ 6 <= 2 ->
  let sigma := exact_scale max_pixels (width * height) in
  exists x y : R,
    scaled_size (F := F) width height max_pixels = (Int_part x, Int_part y)
    /\ 0 <= x <= (1 + u) ^ 3 * (IZR width * sigma)
    /\ 0 <= y <= (1 + u) ^ 3 * (IZR height * sigma)
    /\ IZR width * sigma * (IZR height * sigma) = IZR max_pixels.
Proof.
  intros Hw Hh HM Hu0 Hu6 sigma.
  assert (Hcur : (width * height < 2 ^ 62)%Z) by nia.
  destruct (exact_scale_facts _ _ HM) as [[Hs0 Hs1] Hss].
  destruct (scaled_dim_bounds (F := F) width _ _ Hw HM Hcur Hu0 Hu6)
    as [_ [Hxhi Hx0]].
  destruct (scaled_dim_bounds (F := F) height _ _ Hh HM Hcur Hu0 Hu6)
    as [_ [Hyhi Hy0]].
  exists (val (mul_int width (scale_factor (F := F) max_pixels (width * height)))),
         (val (mul_int height (scale_factor (F := F) max_pixels (width * height)))).
  split; [|split; [|split]].
  - unfold scaled_size. f_equal; apply trunc_int_ok; assumption.
  - split; assumption.
  - split; assumption.
  - fold sigma in Hss.
    replace (IZR width * sigma * (IZR height * sigma))
      with (IZR width * IZR height * (sigma * sigma)) by ring.
    rewrite Hss, mult_IZR. field.
    assert (0 < IZR width) by (apply IZR_lt; lia).
    assert (0 < IZR height) by (apply IZR_lt; lia).
    nra.
Qed.

(** The resize of an image over the pixel limit never enlarges a side, and
    makes at least one side smaller: the step is a downscale. *)
Theorem pixel_limit_never_upscales
  (width height max_pixels : Z) :
  (0 < width < 2 ^ 31)%Z -> (0 < height < 2 ^ 31)%Z ->
  (0 < max_pixels)%Z -> (width * height > max_pixels)%Z ->
  0 <= u -> IZR max_pixels * (1 + u) ^ 6 < IZR max_pixels + 1 ->
  IZR (Z.max width height) * ((1 + u) ^ 3 - 1) < 1 ->
  let '(new_width, new_height) :=
    scaled_size (F := F) width height max_pixels in
  (0 <= new_width <= width)%Z /\ (0 <= new_height <= height)%Z
  /\ (new_width < width \/ new_height < height)%Z.
Proof.
  intros Hw Hh HM Hgt Hu0 Hsmall Hmax.
  assert (HMr : 1 <= IZR max_pixels) by (apply IZR_le; lia).
  assert (Hu6 : (1 + u) ^ 6 <= 2).
  { set (E := (1 + u) ^ 6) in *. assert (0 <= E) by (unfold E; nra). nra. }
  assert (HMcur : (0 < max_pixels < width * height)%Z) by lia.
  destruct (scaled_size_values width height max_pixels Hw Hh HMcur Hu0 Hu6)
    as [x [y [Hsz [[Hx0 Hx] [[Hy0 Hy] Harea]]]]].
  destruct (exact_scale_facts _ _ HMcur) as [[Hs0 Hs1] _].
  set (sigma := exact_scale max_pixels (width * height)) in *.
  rewrite Hsz.
  destruct (Int_part_bounds _ Hx0) as [Hiw0 [_ Hiw]].
  destruct (Int_part_bounds _ Hy0) as [Hih0 [_ Hih]].
  assert (Hwr : 0 < IZR width) by (apply IZR_lt; lia).
  assert (Hhr : 0 < IZR height) by (apply IZR_lt; lia).
  assert (Hmw : IZR width <= IZR (Z.max width height)) by (apply IZR_le; lia).
  assert (Hmh : IZR height <= IZR (Z.max width height)) by (apply IZR_le; lia).
  assert (He3 : 1 <= (1 + u) ^ 3) by nra.
  assert (Hnw : (Int_part x <= width)%Z).
  { apply Z.lt_succ_r, lt_IZR. rewrite succ_IZR.
    assert (x <= (1 + u) ^ 3 * IZR width) by nra. nra. }
  assert (Hnh : (Int_part y <= height)%Z).
  { apply Z.lt_succ_r, lt_IZR. rewrite succ_IZR.
    assert (y <= (1 + u) ^ 3 * IZR height) by nra. nra. }
  split; [lia|]. split; [lia|].
  assert (Harea' : (Int_part x * Int_part y <= max_pixels)%Z).
  { apply Z.lt_succ_r, lt_IZR. rewrite mult_IZR, succ_IZR.
    assert (Hnwr : 0 <= IZR (Int_part x)) by (apply IZR_le; lia).
    assert (Hnhr : 0 <= IZR (Int_part y)) by (apply IZR_le; lia).
    assert (HXY : IZR (Int_part x) * IZR (Int_part y) <= x * y) by nra.
    assert (Hprod : x * y <=
              (1 + u) ^ 3 * (IZR width * sigma)
              * ((1 + u) ^ 3 * (IZR height * sigma))).
    { apply Rmult_le_compat; assumption. }
    replace ((1 + u) ^ 3 * (IZR width * sigma)
             * ((1 + u) ^ 3 * (IZR height * sigma)))
      with ((1 + u) ^ 6 * (IZR width * sigma * (IZR height * sigma)))
      in Hprod by ring.
    rewrite Harea in Hprod. lra. }
  nia.
Qed.

(** A strip so wide that [height * max_pixels < width] gets the new height
    0, and one so tall that [width * max_pixels < height] the new width 0:
    the size passed to [img.resize] then has no pixels. *)
Theorem pixel_limit_flattens_thin_strips
  (width height max_pixels : Z) :
  (0 < width < 2 ^ 31)%Z -> (0 < height < 2 ^ 31)%Z ->
  (0 < max_pixels)%Z ->
  0 <= u -> (1 + u) ^ 6 <= 2 ->
  2 * IZR (Z.max width height) * ((1 + u) ^ 3 - 1) < 1 ->
  ((height * max_pixels < width)%Z ->
   snd (scaled_size (F := F) width height max_pixels) = 0%Z)
  /\ ((width * max_pixels < height)%Z ->
      fst (scaled_size (F := F) width height max_pixels) = 0%Z).
Proof.
  intros Hw Hh HM Hu0 Hu6 Hmax.
  assert (Hwr : 1 <= IZR width) by (apply IZR_le; lia).
  assert (Hhr : 1 <= IZR height) by (apply IZR_le; lia).
  assert (HMr : 1 <= IZR max_pixels) by (apply IZR_le; lia).
  assert (Hmw : IZR width <= IZR (Z.max width height)) by (apply IZR_le; lia).
  assert (Hmh : IZR height <= IZR (Z.max width height)) by (apply IZR_le; lia).
  assert (He3 : 1 <= (1 + u) ^ 3) by nra.
  assert (Hthin : forall a b x : R,
             1 <= a -> 0 <= b -> 0 <= x ->
             b * b * a <= a - 1 ->
             2 * a * ((1 + u) ^ 3 - 1) < 1 ->
             x <= (1 + u) ^ 3 * b -> x < 1).
  { intros a b x Ha Hb Hx Hbb Ha3 Hxb.
    set (E := (1 + u) ^ 3) in *.
    assert (Hb1 : 2 * a * b <= 2 * a - 1) by nra.
    assert (2 * a * x <= E * (2 * a * b)) by nra.
    assert (E * (2 * a * b) <= E * (2 * a - 1)) by nra.
    nra. }
  split; intros Hstrip.
  - assert (HMcur : (0 < max_pixels < width * height)%Z) by nia.
    destruct (scaled_size_values width height max_pixels Hw Hh HMcur Hu0 Hu6)
      as [x [y [Hsz [_ [[Hy0 Hy] Harea]]]]].
    destruct (exact_scale_facts _ _ HMcur) as [[Hs0 Hs1] _].
    set (sigma := exact_scale max_pixels (width * height)) in *.
    rewrite Hsz. cbn [snd]. symmetry. apply Int_part_spec.
    assert (Hint : IZR height * IZR max_pixels <= IZR width - 1).
    { rewrite <- mult_IZR, <- minus_IZR. apply IZR_le. lia. }
    assert (Hsq : IZR height * sigma * (IZR height * sigma) * IZR width
                  <= IZR width - 1).
    { replace (IZR height * sigma * (IZR height * sigma) * IZR width)
        with (IZR height * (IZR width * sigma * (IZR height * sigma))) by ring.
      rewrite Harea. exact Hint. }
    assert (y < 1).
    { apply (Hthin (IZR width) (IZR height * sigma) y); try assumption; nra. }
    lra.
  - assert (HMcur : (0 < max_pixels < width * height)%Z) by nia.
    destruct (scaled_size_values width height max_pixels Hw Hh HMcur Hu0 Hu6)
      as [x [y [Hsz [[Hx0 Hx] [_ Harea]]]]].
    destruct (exact_scale_facts _ _ HMcur) as [[Hs0 Hs1] _].
    set (sigma := exact_scale max_pixels (width * height)) in *.
    rewrite Hsz. cbn [fst]. symmetry. apply Int_part_spec.
    assert (Hint : IZR width * IZR max_pixels <= IZR height - 1).
    { rewrite <- mult_IZR, <- minus_IZR. apply IZR_le. lia. }
    assert (Hsq : IZR width * sigma * (IZR width * sigma) * IZR height
                  <= IZR height - 1).
    { replace (IZR width * sigma * (IZR width * sigma) * IZR height)
        with (IZR width * (IZR width * sigma * (IZR height * sigma))) by ring.
      rewrite Harea. exact Hint. }
    assert (x < 1).
    { apply (Hthin (IZR height) (IZR width * sigma) x); try assumption; nra. }
    lra.
Qed.

End ResizeShape.

Lemma binary64_roundoff_nonneg : (0 <= binary64_roundoff)%R.
Proof. unfold binary64_roundoff. lra. Qed.

Lemma pixel_limit_never_upscales_witness :
  let '(new_width, new_height) := scaled_size (F := R) 6000 3000 15000000 in
  0 <= new_width <= 6000 /\ 0 <= new_height <= 3000
  /\ (new_width < 6000 \/ new_height < 3000).
Proof.
  apply (pixel_limit_never_upscales
           (F := R)
           (FA := exact_accuracy binary64_roundoff binary64_roundoff_nonneg)
           6000 3000 15000000);
    try lia; try (unfold binary64_roundoff; lra).
  change (Z.max 6000 3000) with 6000. unfold binary64_roundoff. lra.
Defined.

Lemma pixel_limit_flattens_thin_strips_witness :
  snd (scaled_size (F := R) 15000001 1 15000000) = 0.
Proof.
  apply (pixel_limit_flattens_thin_strips
           (F := R)
           (FA := exact_accuracy binary64_roundoff binary64_roundoff_nonneg)
           15000001 1 15000000);
    try lia; try (unfold binary64_roundoff; lra).
  change (Z.max 15000001 1) with 15000001. unfold binary64_roundoff. lra.
Defined.

(** ** Colour modes that the encoder accepts *)

Section Modes.

Context {F : Type} {PF : PyFloat F} {P : Pillow}.

(** The modes of an opened image for which [img.save] gets a mode it can
    write: those of the JPEG plugin, and the two that line 43 converts. *)
Lemma normalize_mode_writable (img : Image Pixels) :
  string_in (mode (normalize_mode img)) jpeg_rawmode
  = string_in (mode img) (jpeg_rawmode ++ ["RGBA"; "P"]).
Proof.
  unfold normalize_mode, string_in, jpeg_rawmode. cbn [app existsb].
  destruct (String.eqb_spec (mode img) "RGBA") as [->|_]; [reflexivity|].
  destruct (String.eqb_spec (mode img) "P") as [->|_]; [reflexivity|].
  cbn [orb]. now rewrite !orb_false_r.
Qed.

(** The image that reaches [img.save] is never in mode [RGBA] or [P], and
    the mode step changes nothing when applied again. *)
Theorem encoder_never_sees_rgba_or_palette (img : Image Pixels) :
  mode (normalize_mode img) <> "RGBA"
  /\ mode (normalize_mode img) <> "P"
  /\ normalize_mode (normalize_mode img) = normalize_mode img.
Proof.
  unfold normalize_mode, string_in. cbn [existsb].
  destruct (String.eqb_spec (mode img) "RGBA") as [Hrgba|Hrgba].
  - cbn. repeat split; discriminate.
  - destruct (String.eqb_spec (mode img) "P") as [Hp|Hp].
    + cbn. repeat split; discriminate.
    + cbn [orb]. repeat split; try assumption.
      destruct (String.eqb_spec (mode img) "RGBA"); [contradiction|].
      destruct (String.eqb_spec (mode img) "P"); [contradiction|].
      reflexivity.
Qed.

Lemma pixel_limit_cases (file_path : string) (img : Image Pixels)
  (max_pixels : Z) :
  (exists e : Exn,
     pixel_limit (F := F) file_path img max_pixels = ([], Raise e))
  \/ (exists (out : list Line) (img' : Image Pixels),
        pixel_limit (F := F) file_path img max_pixels = (out, Ok img')
        /\ mode img' = mode img
        /\ (List.length out <= 1)%nat
        /\ Forall (fun l => exists name w h, l = LResized name w h) out).
Proof.
  unfold pixel_limit. destruct (size img) as [width height].
  destruct (width * height >? max_pixels).
  - destruct (width * height =? 0); [left; eexists; reflexivity|].
    destruct (float_limit * Z.abs (width * height) <=? Z.abs max_pixels);
      [left; eexists; reflexivity|].
    destruct ((max_pixels <? 0) && (0 <? width * height)
              || (0 <? max_pixels) && (width * height <? 0));
      [left; eexists; reflexivity|].
    destruct (scaled_size width height max_pixels) as [nw nh].
    unfold resize.
    destruct ((nw <? 1) || (nh <? 1)); [left; eexists; reflexivity|].
    right. eexists _, _. split; [reflexivity|]. cbn.
    repeat split; [lia|]. repeat constructor.
    now exists (basename file_path), nw, nh.
  - right. exists [], img. cbn. repeat split; [lia | constructor].
Qed.

Lemma pixel_limit_keeps_mode (file_path : string) (img img' : Image Pixels)
  (max_pixels : Z) (out : list Line) :
  pixel_limit (F := F) file_path img max_pixels = (out, Ok img') ->
  mode img' = mode img /\ (List.length out <= 1)%nat.
Proof.
  intros Hlimit.
  destruct (pixel_limit_cases file_path img max_pixels)
    as [[e He] | [out0 [img0 [H0 [Hmode [Hlen _]]]]]].
  - rewrite He in Hlimit. discriminate.
  - rewrite H0 in Hlimit. injection Hlimit as <- <-. now split.
Qed.

Lemma process_after_pixel_limit
  (file_path : string) (img img' : Image Pixels) (out : list Line)
  (max_pixels max_bytes : Z) :
  image_open file_path = Ok img ->
  pixel_limit (F := F) file_path img max_pixels = (out, Ok img') ->
  process_and_encode_image (F := F) file_path max_pixels max_bytes
  = (out,
     match snd (compress_loop (F := F) (normalize_mode img') max_bytes 95) with
     | Ok buffer => Ok (data_url_prefix ++ Base64.b64encode buffer)%string
     | Raise e => Raise e
     end).
Proof.
  intros Hopen Hlimit.
  unfold process_and_encode_image. rewrite Hopen. cbn [lift bind].
  rewrite Hlimit. cbn [bind].
  destruct (snd (compress_loop (F := F) (normalize_mode img') max_bytes 95));
    cbn; now rewrite app_nil_r.
Qed.

(** A file that opens in a mode outside the eight accepted ones, and whose
    image passes the pixel-limit step, makes [process_and_encode_image]
    raise the [OSError] of the first save, after the output of that
    step. *)
Theorem unwritable_mode_raises_oserror
  (file_path : string) (img img' : Image Pixels) (out : list Line)
  (max_pixels max_bytes : Z) :
  image_open file_path = Ok img ->
  pixel_limit (F := F) file_path img max_pixels = (out, Ok img') ->
  string_in (mode img) ["1"; "L"; "RGB"; "RGBX"; "CMYK"; "YCbCr"; "RGBA"; "P"]
    = false ->
  process_and_encode_image (F := F) file_path max_pixels max_bytes
  = (out,
     Raise (OSError ("cannot write mode " ++ mode img ++ " as JPEG")%string)).
Proof.
  intros Hopen Hlimit Hmode.
  destruct (pixel_limit_keeps_mode _ _ _ _ _ Hlimit) as [Hmode' _].
  rewrite (process_after_pixel_limit _ _ _ _ _ max_bytes Hopen Hlimit).
  f_equal.
  assert (Hunw : string_in (mode (normalize_mode img')) jpeg_rawmode = false).
  { rewrite normalize_mode_writable, Hmode'. exact Hmode. }
  assert (Hsame : mode (normalize_mode img') = mode img).
  { unfold normalize_mode.
    destruct (string_in (mode img') ["RGBA"; "P"]) eqn:Hin; [|exact Hmode'].
    rewrite Hmode' in Hin. unfold string_in in Hin, Hmode.
    cbn [existsb] in Hin, Hmode.
    destruct (String.eqb (mode img) "RGBA"), (String.eqb (mode img) "P");
      cbn in Hin; try discriminate;
      rewrite ?orb_true_r in Hmode; discriminate. }
  rewrite compress_loop_step. unfold save_jpeg at 1. rewrite Hunw, Hsame.
  reflexivity.
Qed.

(** A file that opens in one of the eight accepted modes, whose image
    passes the pixel-limit step, with an encoder that does not fail, yields
    a payload, after the output of that step, which is at most one line
    (the [Resized] line). *)
Theorem writable_mode_returns_payload
  (file_path : string) (img img' : Image Pixels) (out : list Line)
  (max_pixels max_bytes : Z) :
  image_open file_path = Ok img ->
  pixel_limit (F := F) file_path img max_pixels = (out, Ok img') ->
  string_in (mode img) ["1"; "L"; "RGB"; "RGBX"; "CMYK"; "YCbCr"; "RGBA"; "P"]
    = true ->
  (forall (i : Image Pixels) (q : Z), exists b, jpeg_encode i q = Ok b) ->
  exists payload : string,
    process_and_encode_image (F := F) file_path max_pixels max_bytes
    = (out, Ok payload)
    /\ (List.length out <= 1)%nat.
Proof.
  intros Hopen Hlimit Hmode Hencode.
  destruct (pixel_limit_keeps_mode _ _ _ _ _ Hlimit) as [Hmode' Hlen].
  rewrite (process_after_pixel_limit _ _ _ _ _ max_bytes Hopen Hlimit).
  assert (Hw : string_in (mode (normalize_mode img')) jpeg_rawmode = true).
  { rewrite normalize_mode_writable, Hmode'. exact Hmode. }
  rewrite (compress_loop_last_save (F := F) (normalize_mode img') max_bytes 95).
  unfold save_jpeg. rewrite Hw.
  destruct (Hencode (normalize_mode img')
              (last (fst (compress_loop (F := F) (normalize_mode img')
                            max_bytes 95)) 95)) as [b Hb].
  rewrite Hb.
  eexists. split; [reflexivity | exact Hlen].
Qed.

End Modes.

Lemma unwritable_mode_raises_oserror_witness :
  process_and_encode_image (F := float) (H := album)
    "pics/scan.png" default_max_pixels default_max_bytes
  = ([], Raise (OSError "cannot write mode LA as JPEG")).
Proof.
  apply (unwritable_mode_raises_oserror (F := float) (P := album)
           "pics/scan.png" (mkImage (4, 4) "LA" tt) (mkImage (4, 4) "LA" tt)
           [] default_max_pixels default_max_bytes);
    reflexivity.
Defined.

Lemma writable_mode_returns_payload_witness :
  exists payload : string,
    process_and_encode_image (F := float) (H := album)
      "pics/logo.png" default_max_pixels default_max_bytes
    = ([], Ok payload)
    /\ (List.length (@nil Line) <= 1)%nat.
Proof.
  apply (writable_mode_returns_payload (F := float) (P := album)
           "pics/logo.png" (mkImage (4, 4) "RGBA" tt)
           (mkImage (4, 4) "RGBA" tt) []
           default_max_pixels default_max_bytes);
    [reflexivity | reflexivity | reflexivity |].
  intros i q. now exists jpeg_stub.
Defined.

(** ** The size and the characters of the payload *)

Lemma string_length_app (a b : string) :
  String.length (a ++ b)%string = (String.length a + String.length b)%nat.
Proof. induction a as [|c a IH]; [reflexivity | cbn; now rewrite IH]. Qed.

Lemma b64encode_length_eq (data : list Byte.byte) :
  Z.of_nat (String.length (Base64.b64encode data))
  = 4 * ((Z.of_nat (List.length data) + 2) / 3).
Proof.
  induction data as [|a|a b|a b c rest IH] using list_ind3;
    try reflexivity.
  change (Base64.b64encode (a :: b :: c :: rest))
    with (String (Base64.b64_char (Base64.sextet 0
                    (Base64.group (Byte.to_N a) (Byte.to_N b) (Byte.to_N c))))
         (String (Base64.b64_char (Base64.sextet 1
                    (Base64.group (Byte.to_N a) (Byte.to_N b) (Byte.to_N c))))
         (String (Base64.b64_char (Base64.sextet 2
                    (Base64.group (Byte.to_N a) (Byte.to_N b) (Byte.to_N c))))
         (String (Base64.b64_char (Base64.sextet 3
                    (Base64.group (Byte.to_N a) (Byte.to_N b) (Byte.to_N c))))
            (Base64.b64encode rest))))).
  cbn [String.length List.length].
  rewrite !Nat2Z.inj_succ, IH.
  Z.div_mod_to_equations. lia.
Qed.

(** Base64 text has four characters for every three bytes, the last group
    padded: its length is [4 * ceil(n / 3)], a multiple of four. *)
Theorem b64encode_length (data : list Byte.byte) :
  Z.of_nat (String.length (Base64.b64encode data))
  = 4 * ((Z.of_nat (List.length data) + 2) / 3)
  /\ (Z.of_nat (String.length (Base64.b64encode data))) mod 4 = 0.
Proof.
  rewrite b64encode_length_eq. split; [reflexivity|].
  rewrite Z.mul_comm. apply Z.mod_mul. discriminate.
Qed.

(** The margin of line 57 is enough: bytes within seven tenths of
    [max_bytes] give a data URL, prefix included, of at most [max_bytes]
    characters, for any [max_bytes] from 400 up. *)
Theorem payload_length_within_max_bytes
  (buffer : list Byte.byte) (max_bytes : Z) :
  10 * Z.of_nat (List.length buffer) <= 7 * max_bytes ->
  400 <= max_bytes ->
  Z.of_nat (String.length
              (data_url_prefix ++ Base64.b64encode buffer)%string)
  <= max_bytes.
Proof.
  intros Hfit Hmin.
  rewrite string_length_app, Nat2Z.inj_add, b64encode_length_eq.
  change (Z.of_nat (String.length data_url_prefix)) with 23.
  Z.div_mod_to_equations. lia.
Qed.

Lemma payload_length_within_max_bytes_witness :
  Z.of_nat (String.length
              (data_url_prefix ++ Base64.b64encode jpeg_stub)%string)
  <= default_max_bytes.
Proof.
  apply payload_length_within_max_bytes; vm_compute; discriminate.
Defined.

Lemma b64_char_is_text (i : N) : (i < 64)%N -> b64_text_char (Base64.b64_char i) = true.
Proof.
  intros Hi. unfold b64_text_char. now rewrite b64_index_char.
Qed.

(** Base64 text consists of characters of the alphabet and of [=] only, so
    the payload is plain ASCII. *)
Theorem b64encode_text_only (data : list Byte.byte) :
  string_forallb b64_text_char (Base64.b64encode data) = true.
Proof.
  induction data as [|a|a b|a b c rest IH] using list_ind3.
  - reflexivity.
  - cbn [Base64.b64encode string_forallb].
    rewrite !b64_char_is_text by apply sextet_lt. reflexivity.
  - cbn [Base64.b64encode string_forallb].
    rewrite !b64_char_is_text by apply sextet_lt. reflexivity.
  - cbn [Base64.b64encode string_forallb].
    rewrite !b64_char_is_text by apply sextet_lt. exact IH.
Qed.

(** ** Paths *)

Lemma string_app_assoc (a b c : string) :
  ((a ++ b) ++ c)%string = (a ++ (b ++ c))%string.
Proof. induction a as [|x a IH]; [reflexivity | cbn; now rewrite IH]. Qed.

Lemma string_app_nil_r (a : string) : (a ++ "")%string = a.
Proof. induction a as [|x a IH]; [reflexivity | cbn; now rewrite IH]. Qed.

Lemma string_rev_acc_app (s acc : string) :
  string_rev_acc s acc = (string_rev s ++ acc)%string.
Proof.
  unfold string_rev. revert acc.
  induction s as [|c s IH]; intros acc; [reflexivity|].
  cbn [string_rev_acc]. rewrite (IH (String c acc)), (IH (String c "")).
  now rewrite string_app_assoc.
Qed.

Lemma basename_acc_no_slash (name cur : string) :
  no_slash name = true ->
  basename_acc name cur = (string_rev cur ++ name)%string.
Proof.
  revert cur. induction name as [|c name IH]; intros cur Hns.
  - cbn [basename_acc]. now rewrite string_app_nil_r.
  - unfold no_slash in Hns. cbn [string_forallb] in Hns.
    apply andb_true_iff in Hns as [Hc Hname].
    cbn [basename_acc].
    destruct (Ascii.eqb c "/"); [discriminate|].
    rewrite (IH _ Hname).
    change (string_rev (String c cur)) with (string_rev_acc cur (String c "")).
    rewrite string_rev_acc_app, string_app_assoc. reflexivity.
Qed.

Lemma basename_acc_after_slash (a name cur : string) :
  basename_acc (a ++ String "/" name)%string cur = basename_acc name "".
Proof.
  revert cur. induction a as [|c a IH]; intros cur.
  - reflexivity.
  - cbn [append basename_acc]. destruct (Ascii.eqb c "/"); apply IH.
Qed.

(** The path that [ingest_pictures] builds for a listed name ends in that
    name: [basename(join(directory, name))] is [name], so the [Resized]
    line and the stored path name the file that was listed. *)
Theorem basename_of_joined_path (directory_path filename : string) :
  no_slash filename = true ->
  basename (path_join directory_path filename) = filename.
Proof.
  intros Hns. unfold path_join, startswith.
  assert (Hstart : String.prefix "/" filename = false).
  { destruct filename as [|c name]; [reflexivity|].
    unfold no_slash in Hns. cbn [string_forallb] in Hns.
    apply andb_true_iff in Hns as [Hc _]. cbn.
    destruct (Ascii.eqb_spec "/" c) as [<-|]; [discriminate|].
    destruct c as [[] [] [] [] [] [] [] []]; try reflexivity; contradiction. }
  rewrite Hstart.
  destruct (String.eqb_spec directory_path "") as [->|Hdir].
  - cbn [orb append]. unfold basename.
    now rewrite (basename_acc_no_slash _ _ Hns).
  - cbn [orb].
    destruct (endswith directory_path "/") eqn:Hends.
    + apply endswith_spec in Hends as [stem ->].
      rewrite string_app_assoc. unfold basename.
      change ("/" ++ filename)%string with (String "/" filename).
      rewrite basename_acc_after_slash.
      now rewrite (basename_acc_no_slash _ _ Hns).
    + unfold basename.
      change ("/" ++ filename)%string with (String "/" filename).
      rewrite basename_acc_after_slash.
      now rewrite (basename_acc_no_slash _ _ Hns).
Qed.

Lemma basename_of_joined_path_witness :
  basename (path_join "pics" "cat.jpg") = "cat.jpg".
Proof. apply basename_of_joined_path. reflexivity. Defined.

(** ** The collection during an ingestion *)

Section IngestFacts.

Context {F : Type} {PF : PyFloat F}.
Context {P : Pillow} {V : Voyage} {C : Collection}.

Lemma quiet_resized (out : list Line) :
  Forall (fun l => exists name w h, l = LResized name w h) out -> quiet out.
Proof.
  induction 1 as [|l out [name [w [h ->]]] _ [IHi IHf]]; split; auto.
Qed.

Lemma process_output_quiet (file_path : string) (max_pixels max_bytes : Z) :
  quiet (fst (process_and_encode_image (F := F) file_path
                max_pixels max_bytes)).
Proof.
  destruct (image_open file_path) as [img|e] eqn:Hopen.
  - destruct (pixel_limit_cases (F := F) file_path img max_pixels)
      as [[e Hlimit] | [out [img' [Hlimit [_ [_ Hres]]]]]].
    + unfold process_and_encode_image. rewrite Hopen. cbn [lift bind].
      rewrite Hlimit. split; reflexivity.
    + rewrite (process_after_pixel_limit _ _ _ _ _ max_bytes Hopen Hlimit).
      now apply quiet_resized.
  - unfold process_and_encode_image. rewrite Hopen. split; reflexivity.
Qed.

Lemma ingest_try_cases (filename image_path : string) (docs : list Py) :
  exists out : list Line,
    quiet out
    /\ ((exists e, ingest_try (F := F) filename image_path docs
                   = (out, docs, Raise e))
        \/ (exists embedding,
              ingest_try (F := F) filename image_path docs
              = (out ++ [LIndexed filename],
                 docs ++ [picture_doc filename embedding image_path],
                 Ok tt))).
Proof.
  pose proof (process_output_quiet image_path default_max_pixels
                default_max_bytes) as Hq.
  unfold ingest_try, insert_one.
  destruct (process_and_encode_image image_path default_max_pixels
              default_max_bytes) as [out [b64|e0]]; cbn [fst] in Hq;
    exists out; (split; [exact Hq|]); [|left; now exists e0].
  destruct (multimodal_embed [multimodal_input b64] embed_model document_intent)
    as [[|embedding others]|e1]; cbn [first_embedding];
    [left; eexists; reflexivity | | left; now exists e1].
  destruct (insert_error docs (picture_doc filename embedding image_path))
    as [e2|]; [left; now exists e2 | right; now exists embedding].
Qed.

Lemma filter_quiet_indexed (out rest : list Line) :
  quiet out -> filter is_indexed (out ++ rest) = filter is_indexed rest.
Proof. intros [Hi _]. now rewrite filter_app, Hi. Qed.

Lemma filter_quiet_failed (out rest : list Line) :
  quiet out -> filter is_failed (out ++ rest) = filter is_failed rest.
Proof. intros [_ Hf]. now rewrite filter_app, Hf. Qed.

(** An ingestion only appends: whatever its outcome, the collection
    afterwards is the collection before followed by one document for every
    [Indexed] line, each of them the document of an eligible listed file
    with the joined path.  Nothing is removed or rewritten, also when the
    run is cut short by an exception. *)
Theorem ingest_only_appends
  (directory_path : string) (files : list string) (docs : list Py) :
  exists added : list Py,
    snd (fst (ingest_files (F := F) directory_path files docs))
      = docs ++ added
    /\ Forall (fun d =>
                 exists filename embedding,
                   In filename files /\ eligible filename = true
                   /\ d = picture_doc filename embedding
                            (path_join directory_path filename))
              added
    /\ List.length added
       = List.length
           (filter is_indexed
              (fst (fst (ingest_files (F := F) directory_path files docs)))).
Proof.
  revert docs. induction files as [|filename rest IH]; intros docs.
  - exists []. cbn. now rewrite app_nil_r.
  - cbn [ingest_files]. destruct (eligible filename) eqn:Hel.
    + destruct (ingest_try_cases filename
                  (path_join directory_path filename) docs)
        as [out [Hq [[e Htry]|[embedding Htry]]]]; rewrite Htry.
      * destruct (isinstance_OSError e).
        -- destruct (IH docs) as [added [Hdocs [Hall Hlen]]].
           destruct (ingest_files directory_path rest docs)
             as [[out' docs'] r]. cbn [fst snd] in *.
           exists added. split; [exact Hdocs|]. split.
           ++ eapply Forall_impl; [|exact Hall].
              intros d [f [emb [Hin Hd]]]. exists f, emb. split; [now right|exact Hd].
           ++ rewrite filter_quiet_indexed by exact Hq. exact Hlen.
        -- exists []. cbn [fst snd]. rewrite app_nil_r.
           split; [reflexivity|]. split; [constructor|].
           now rewrite (proj1 Hq).
      * destruct (IH (docs ++ [picture_doc filename embedding
                                 (path_join directory_path filename)]))
          as [added [Hdocs [Hall Hlen]]].
        destruct (ingest_files directory_path rest
                    (docs ++ [picture_doc filename embedding
                                (path_join directory_path filename)]))
          as [[out' docs'] r]. cbn [fst snd] in *.
        exists (picture_doc filename embedding
                  (path_join directory_path filename) :: added).
        split; [rewrite Hdocs, <- app_assoc; reflexivity|]. split.
        -- constructor.
           ++ exists filename, embedding. split; [now left|]. now split.
           ++ eapply Forall_impl; [|exact Hall].
              intros d [f [emb [Hin Hd]]]. exists f, emb.
              split; [now right|exact Hd].
        -- rewrite <- app_assoc, filter_quiet_indexed by exact Hq.
           cbn. now rewrite Hlen.
    + destruct (IH docs) as [added [Hdocs [Hall Hlen]]].
      exists added. split; [exact Hdocs|]. split; [|exact Hlen].
      eapply Forall_impl; [|exact Hall].
      intros d [f [emb [Hin Hd]]]. exists f, emb. split; [now right|exact Hd].
Qed.

(** A run that comes to its end has printed exactly one [Indexed] or
    [Failed] line for every eligible file of the listing. *)
Theorem completed_run_accounts_for_every_file
  (directory_path : string) (files : list string) (docs : list Py) :
  snd (ingest_files (F := F) directory_path files docs) = Ok tt ->
  let out := fst (fst (ingest_files (F := F) directory_path files docs)) in
  (List.length (filter is_indexed out) + List.length (filter is_failed out)
   = List.length (filter eligible files))%nat.
Proof.
  revert docs. induction files as [|filename rest IH]; intros docs.
  - reflexivity.
  - cbn [ingest_files filter]. destruct (eligible filename) eqn:Hel.
    + destruct (ingest_try_cases filename
                  (path_join directory_path filename) docs)
        as [out [Hq [[e Htry]|[embedding Htry]]]]; rewrite Htry.
      * destruct (isinstance_OSError e); [|discriminate].
        specialize (IH docs).
        destruct (ingest_files directory_path rest docs)
          as [[out' docs'] r]. cbn [fst snd] in *.
        intros Hr. specialize (IH Hr).
        rewrite filter_quiet_indexed, filter_quiet_failed by exact Hq.
        cbn. lia.
      * specialize (IH (docs ++ [picture_doc filename embedding
                                   (path_join directory_path filename)])).
        destruct (ingest_files directory_path rest
                    (docs ++ [picture_doc filename embedding
                                (path_join directory_path filename)]))
          as [[out' docs'] r]. cbn [fst snd] in *.
        intros Hr. specialize (IH Hr).
        rewrite <- !app_assoc.
        rewrite filter_quiet_indexed, filter_quiet_failed by exact Hq.
        cbn. lia.
    + apply IH.
Qed.

End IngestFacts.

Lemma completed_run_accounts_for_every_file_witness :
  let out := fst (fst (ingest_files (F := float) (H := album)
                         (H0 := constant_embedder) (H1 := sample_store)
                         "pics" ["cat.jpg"; "bad.png"; "notes.txt"] [])) in
  (List.length (filter is_indexed out) + List.length (filter is_failed out)
   = List.length (filter eligible ["cat.jpg"; "bad.png"; "notes.txt"]))%nat.
Proof.
  apply (completed_run_accounts_for_every_file
           (F := float) (P := album) (V := constant_embedder)
           (C := sample_store) "pics" ["cat.jpg"; "bad.png"; "notes.txt"] []).
  vm_compute. reflexivity.
Defined.

Section IngestEdges.

Context {F : Type} {PF : PyFloat F}.
Context {P : Pillow} {V : Voyage} {C : Collection}.

Lemma ingest_try_any_docs (filename image_path : string) (docs : list Py) :
  (forall (ds : list Py) (d : Py), insert_error ds d = None) ->
  ingest_try (F := F) filename image_path docs
  = let '(out, added, r) := ingest_try (F := F) filename image_path [] in
    (out, docs ++ added, r).
Proof.
  intros Hins. unfold ingest_try, insert_one.
  destruct (process_and_encode_image image_path default_max_pixels
              default_max_bytes) as [out [b64|e0]];
    [|now rewrite app_nil_r].
  destruct (multimodal_embed [multimodal_input b64] embed_model document_intent)
    as [embeddings|e1]; [|now rewrite app_nil_r].
  destruct (first_embedding embeddings) as [embedding|e2];
    [|now rewrite app_nil_r].
  rewrite !Hins. reflexivity.
Qed.

(** With a store that accepts every insert, a run does not look at what the
    collection already holds: it appends to any collection the documents it
    would put into an empty one, with the same output and outcome.  So a
    second run over the same directory stores every picture a second time. *)
Theorem ingest_ignores_existing_documents
  (directory_path : string) (files : list string) (docs : list Py) :
  (forall (ds : list Py) (d : Py), insert_error ds d = None) ->
  ingest_files (F := F) directory_path files docs
  = let '(out, added, r) := ingest_files (F := F) directory_path files [] in
    (out, docs ++ added, r).
Proof.
  intros Hins. revert docs.
  induction files as [|filename rest IH]; intros docs.
  - cbn. now rewrite app_nil_r.
  - cbn [ingest_files]. destruct (eligible filename); [|apply IH].
    rewrite (ingest_try_any_docs filename _ docs Hins).
    destruct (ingest_try filename (path_join directory_path filename) [])
      as [[out added] [[]|e]].
    + rewrite (IH (docs ++ added)), (IH added).
      destruct (ingest_files directory_path rest []) as [[out' added'] r].
      rewrite <- ?app_assoc. reflexivity.
    + destruct (isinstance_OSError e); [|reflexivity].
      rewrite (IH (docs ++ added)), (IH added).
      destruct (ingest_files directory_path rest []) as [[out' added'] r].
      rewrite <- ?app_assoc. reflexivity.
Qed.

(** A response without embeddings is fatal: the [IndexError] of
    [response.embeddings[0]] is not an [OSError], so it leaves the function
    and no later file is looked at. *)
Theorem empty_response_aborts_with_index_error
  (directory_path filename : string) (rest : list string) (docs : list Py)
  (out : list Line) (b64_image : string) :
  eligible filename = true ->
  process_and_encode_image (F := F) (path_join directory_path filename)
    default_max_pixels default_max_bytes = (out, Ok b64_image) ->
  multimodal_embed [multimodal_input b64_image] embed_model document_intent
    = Ok [] ->
  ingest_files (F := F) directory_path (filename :: rest) docs
  = (out, docs, Raise (IndexError "list index out of range")).
Proof.
  intros Hel Hrun Hembed. cbn [ingest_files]. rewrite Hel.
  unfold ingest_try. rewrite Hrun, Hembed. reflexivity.
Qed.

(** A listing without an eligible name leaves no trace: no output, the
    collection as it was, and a normal end. *)
Theorem nothing_eligible_nothing_done
  (directory_path : string) (files : list string) (docs : list Py) :
  filter eligible files = [] ->
  ingest_files (F := F) directory_path files docs = ([], docs, Ok tt).
Proof.
  induction files as [|filename rest IH]; [reflexivity|].
  cbn [filter ingest_files]. destruct (eligible filename); [discriminate|].
  exact IH.
Qed.

End IngestEdges.

Lemma ingest_ignores_existing_documents_witness :
  ingest_files (F := float) (H := album) (H0 := constant_embedder)
    (H1 := sample_store) "pics" ["cat.jpg"]
    [picture_doc "cat.jpg" [PrimFloat.one; PrimFloat.zero] "pics/cat.jpg"]
  = ([LIndexed "cat.jpg"],
     [picture_doc "cat.jpg" [PrimFloat.one; PrimFloat.zero] "pics/cat.jpg";
      picture_doc "cat.jpg" [PrimFloat.one; PrimFloat.zero] "pics/cat.jpg"],
     Ok tt).
Proof.
  rewrite (ingest_ignores_existing_documents
             (F := float) (P := album) (V := constant_embedder)
             (C := sample_store) "pics" ["cat.jpg"] _ (fun _ _ => eq_refl)).
  reflexivity.
Defined.

Lemma empty_response_aborts_with_index_error_witness :
  ingest_files (F := float) (H := album) (H0 := empty_embedder)
    (H1 := sample_store) "pics" ["cat.jpg"; "bad.png"] []
  = ([], [], Raise (IndexError "list index out of range")).
Proof.
  apply (empty_response_aborts_with_index_error
           (F := float) (P := album) (V := empty_embedder) (C := sample_store)
           "pics" "cat.jpg" ["bad.png"] [] []
           "data:image/jpeg;base64,/9j/2Q==");
    reflexivity.
Defined.

Lemma nothing_eligible_nothing_done_witness :
  ingest_files (F := float) (H := album) (H0 := constant_embedder)
    (H1 := sample_store) "pics" ["notes.txt"; "README"] []
  = ([], [], Ok tt).
Proof.
  apply (nothing_eligible_nothing_done
           (F := float) (P := album) (V := constant_embedder)
           (C := sample_store)).
  reflexivity.
Defined.

(** ** What a search prints and when it fails *)

Section SearchFacts.

Context {V : Voyage} {C : Collection}.

Lemma print_matches_spec (matches : list Py) :
  (snd (print_matches matches) = Ok tt <-> Forall printable matches)
  /\ (snd (print_matches matches) = Ok tt ->
      List.length (fst (print_matches matches)) = List.length matches).
Proof.
  induction matches as [|m matches [IHiff IHlen]].
  - split; [split; constructor | reflexivity].
  - cbn [print_matches].
    destruct (getitem m "file_name") as [name|e1] eqn:Hn; cbn [lift bind].
    + destruct (getitem m "score") as [score|e2] eqn:Hs; cbn [lift bind].
      * destruct (is_number score) eqn:Hnum.
        -- rewrite (format_4f_number _ Hnum). cbn [lift bind print].
           destruct (print_matches matches) as [out [[]|e]];
             cbn [fst snd] in *.
           ++ split; [split; [intros _|reflexivity] | intros _].
              ** constructor; [now exists name, score | now apply IHiff].
              ** cbn. now rewrite IHlen.
           ++ split; [split; [discriminate|] | discriminate].
              intros Hall. inversion Hall as [|? ? _ Hrest]; subst.
              apply IHiff in Hrest. discriminate.
        -- assert (Hfmt : exists e, format_4f score = Raise e).
           { destruct score; cbn in Hnum |- *; try discriminate;
               try (eexists; reflexivity).
             rewrite Hnum. eexists; reflexivity. }
           destruct Hfmt as [e ->]. cbn [lift bind].
           split; [split; [discriminate|] | discriminate].
           intros Hall.
           inversion Hall as [|? ? [n' [s' [_ [Hs' Hnum']]]] _]; subst.
           congruence.
      * split; [split; [discriminate|] | discriminate].
        intros Hall. inversion Hall as [|? ? [n' [s' [_ [Hs' _]]]] _]; subst.
        congruence.
    + split; [split; [discriminate|] | discriminate].
      intros Hall. inversion Hall as [|? ? [n' [s' [Hn' _]]] _]; subst.
      congruence.
Qed.

(** Once the store has answered, the search returns its answer exactly when
    every match carries a [file_name] and a [score] that is a number:
    printing a match without one of them, or with a score that [:.4f]
    cannot format, raises, and the answer is lost.  A search that returns
    has printed the header and one line per match. *)
Theorem search_returns_iff_matches_are_printable
  (query_text : string) (limit : Z) (docs : list Py)
  (query_embedding : Embedding) (others : list Embedding)
  (matches : list Py) :
  multimodal_embed [PList [PStr query_text]] embed_model query_intent
    = Ok (query_embedding :: others) ->
  aggregate docs (search_pipeline query_embedding limit) = Ok matches ->
  (snd (search_pictures query_text limit docs) = Ok matches
   <-> Forall printable matches)
  /\ (snd (search_pictures query_text limit docs) = Ok matches ->
      List.length (fst (search_pictures query_text limit docs))
      = S (List.length matches)).
Proof.
  intros Hembed Hagg.
  destruct (print_matches_spec matches) as [Hiff Hlen].
  unfold search_pictures. rewrite Hembed.
  cbn [lift bind first_embedding]. rewrite Hagg. cbn [lift bind print].
  destruct (print_matches matches) as [out [[]|e]]; cbn [fst snd] in *.
  - split; [split; [intros _; now apply Hiff | reflexivity] | intros _].
    cbn. rewrite app_nil_r. now rewrite Hlen.
  - split; [split; [discriminate|] | discriminate].
    intros Hall. apply Hiff in Hall. discriminate.
Qed.

(** A failure of the embedding call, a response without embeddings, or a
    failure of the store leaves the search with that exception and with
    nothing printed: there is no partial result. *)
Theorem search_failure_prints_nothing
  (query_text : string) (limit : Z) (docs : list Py) (e : Exn) :
  multimodal_embed [PList [PStr query_text]] embed_model query_intent = Raise e
  \/ (multimodal_embed [PList [PStr query_text]] embed_model query_intent
        = Ok []
      /\ e = IndexError "list index out of range")
  \/ (exists (query_embedding : Embedding) (others : list Embedding),
        multimodal_embed [PList [PStr query_text]] embed_model query_intent
          = Ok (query_embedding :: others)
        /\ aggregate docs (search_pipeline query_embedding limit) = Raise e) ->
  search_pictures query_text limit docs = ([], Raise e).
Proof.
  unfold search_pictures.
  intros [Hembed | [[Hembed ->] | [v [others [Hembed Hagg]]]]];
    rewrite Hembed; cbn [lift bind first_embedding]; try reflexivity.
  rewrite Hagg. reflexivity.
Qed.

End SearchFacts.

Lemma search_returns_iff_matches_are_printable_witness :
  List.length (fst (search_pictures (H := constant_embedder)
                      (H0 := sample_store) "red car" 1 []))
  = 2%nat.
Proof.
  refine (proj2 (search_returns_iff_matches_are_printable
                   (V := constant_embedder) (C := sample_store)
                   "red car" 1 [] [PrimFloat.one; PrimFloat.zero] []
                   [PDict [("file_name", PStr "cat.jpg");
                           ("score", PFloat PrimFloat.one)]]
                   eq_refl eq_refl) eq_refl).
Defined.

Lemma search_failure_prints_nothing_witness :
  search_pictures (H := offline_embedder) (H0 := sample_store)
    "red car" 1 []
  = ([], Raise no_ca_bundle).
Proof.
  apply (search_failure_prints_nothing
           (V := offline_embedder) (C := sample_store)).
  left. reflexivity.
Defined.

(** ** The command line *)

Lemma lower_char_idempotent (c : ascii) : lower_char (lower_char c) = lower_char c.
Proof.
  destruct c as [[] [] [] [] [] [] [] []]; reflexivity.
Qed.

Lemma lower_idempotent (s : string) : lower (lower s) = lower s.
Proof.
  induction s as [|c s IH]; [reflexivity|].
  cbn [lower]. now rewrite lower_char_idempotent, IH.
Qed.

Section CommandLine.

Context {F : Type} {PF : PyFloat F}.
Context {P : Pillow} {V : Voyage} {C : Collection}.
Context {FS : FileSystem} {FD : Finder}.

(** The command is read without regard to case, and so is the extension of
    a file: [INGEST], [Search] or [photo.JPG] are taken like their
    lower-case forms. *)
Theorem command_and_extension_ignore_case
  (prog arg1 : string) (terms : list string) (images_dir : string)
  (docs : list Py) (filename : string) :
  main (F := F) (prog :: arg1 :: terms) images_dir docs
  = main (F := F) (prog :: lower arg1 :: terms) images_dir docs
  /\ eligible (lower filename) = eligible filename.
Proof.
  split.
  - unfold main. now rewrite lower_idempotent.
  - unfold eligible. now rewrite lower_idempotent.
Qed.

(** A call without a command, or a [search] without a search term, writes
    one note and leaves through [sys.exit(1)]; no file, client or
    collection is touched. *)
Theorem missing_arguments_exit_1
  (argv : list string) (images_dir : string) (docs : list Py) :
  (List.length argv < 2)%nat
  \/ (exists prog arg1, argv = [prog; arg1] /\ lower arg1 = "search") ->
  exists note : Event,
    (note = EUsage \/ note = ENoSearchTerm)
    /\ main (F := F) argv images_dir docs = ([note], docs, SystemExit 1).
Proof.
  intros [Hlen | [prog [arg1 [-> Hcmd]]]].
  - exists EUsage. split; [now left|].
    destruct argv as [|a [|b argv]]; cbn in Hlen; try lia; reflexivity.
  - exists ENoSearchTerm. split; [now right|].
    unfold main. rewrite Hcmd. reflexivity.
Qed.


Lemma show_match_at_most_one (docs : list Py) (result : Py) :
  (List.length (filter is_show (fst (show_match docs result))) <= 1)%nat.
Proof.
  unfold show_match.
  destruct (getitem result "file_name") as [name|e]; [|cbn; lia].
  destruct (find_one docs (PDict [("file_name", name)])) as [[doc|]|e];
    try (cbn; lia).
  destruct (truthy (PDict doc) && _); [|cbn; lia].
  destruct (getitem (PDict doc) "metadata") as [m|e]; [|cbn; lia].
  destruct (getitem m "path") as [[path| | | | |]|e]; try (cbn; lia).
  destruct (image_open path); cbn; lia.
Qed.

Lemma show_matches_at_most_length (docs : list Py) (results : list Py) :
  (List.length (filter is_show (fst (show_matches docs results)))
   <= List.length results)%nat.
Proof.
  induction results as [|result rest IH]; [cbn; lia|].
  cbn [show_matches].
  pose proof (show_match_at_most_one docs result) as Hone.
  destruct (show_match docs result) as [evs [[]|e]]; cbn [fst] in *.
  - destruct (show_matches docs rest) as [evs' r]. cbn [fst] in *.
    rewrite filter_app, length_app. cbn [List.length]. lia.
  - cbn [List.length]. lia.
Qed.

Lemma filter_show_prints (out : list Line) :
  filter is_show (map EPrint out) = [].
Proof. induction out as [|l out IH]; [reflexivity | exact IH]. Qed.

(** With a store that keeps to the limit of the search stage, no run of the
    script, whatever its arguments, puts more than one picture on the
    screen. *)
Theorem at_most_one_picture_is_shown
  (argv : list string) (images_dir : string) (docs : list Py) :
  honours_limit ->
  (List.length
     (filter is_show (fst (fst (main (F := F) argv images_dir docs))))
   <= 1)%nat.
Proof.
  intros Hlimit.
  - unfold main.
    destruct argv as [|prog [|arg1 terms]]; try (cbn; lia).
    destruct (String.eqb (lower arg1) "ingest").
    + destruct (ingest_pictures images_dir docs) as [[out docs'] r].
      cbn [fst filter is_show]. rewrite filter_show_prints. cbn; lia.
    + destruct (String.eqb (lower arg1) "search"); [|cbn; lia].
      destruct terms as [|t terms]; [cbn; lia|].
      destruct (search_pictures (join_spaces (t :: terms)) 1 docs)
        as [out [results|e]] eqn:Hsearch.
      * apply search_result_is_store_answer in Hsearch
          as [v [others [_ Hagg]]].
        pose proof (Hlimit _ _ _ 1 Hagg eq_refl) as Hlen.
        pose proof (show_matches_at_most_length docs results) as Hshow.
        destruct (show_matches docs results) as [evs r]. cbn [fst] in *.
        rewrite filter_app, filter_show_prints. cbn [app]. lia.
      * cbn [fst]. rewrite filter_show_prints. cbn; lia.
Qed.

(** The round trip from a search to the file: when the search returns one
    match and the document found for its file name holds a [metadata] with
    a [path] that opens, the script shows the picture at that path and ends
    normally. *)
Theorem search_shows_stored_path
  (prog arg1 term : string) (terms : list string) (images_dir : string)
  (docs : list Py) (out : list Line) (result file_name : Py)
  (doc metadata : list (string * Py)) (img_path : string)
  (img : Image Pixels) :
  lower arg1 = "search" ->
  search_pictures (join_spaces (term :: terms)) 1 docs = (out, Ok [result]) ->
  getitem result "file_name" = Ok file_name ->
  find_one docs (PDict [("file_name", file_name)]) = Ok (Some doc) ->
  assoc_get "metadata" doc = Some (PDict metadata) ->
  assoc_get "path" metadata = Some (PStr img_path) ->
  image_open img_path = Ok img ->
  main (F := F) (prog :: arg1 :: term :: terms) images_dir docs
  = (map EPrint out ++ [EShow img_path], docs, Returned).
Proof.
  intros Hcmd Hsearch Hname Hfind Hmeta Hpath Hopen.
  unfold main. rewrite Hcmd.
  change (String.eqb "search" "ingest") with false.
  change (String.eqb "search" "search") with true. cbv iota.
  rewrite Hsearch. cbn [show_matches]. unfold show_match.
  rewrite Hname, Hfind, Hmeta.
  assert (Hdoc : truthy (PDict doc) = true)
    by (destruct doc; [discriminate | reflexivity]).
  assert (Hm : truthy (PDict metadata) = true)
    by (destruct metadata; [discriminate | reflexivity]).
  rewrite Hdoc, Hm. cbn [andb getitem]. rewrite Hmeta. cbn [getitem].
  rewrite Hpath, Hopen. reflexivity.
Qed.

End CommandLine.

Lemma missing_arguments_exit_1_witness :
  exists note : Event,
    (note = EUsage \/ note = ENoSearchTerm)
    /\ main (F := float) (H := album) (H0 := constant_embedder)
         (H1 := sample_store) (H2 := pics) (H3 := first_by_file_name)
         ["picture_ingest_search.py"; "Search"] "pics" []
       = ([note], [], SystemExit 1).
Proof.
  apply (missing_arguments_exit_1 (F := float) (P := album)
           (V := constant_embedder) (C := sample_store) (FS := pics)
           (FD := first_by_file_name)).
  right. exists "picture_ingest_search.py", "Search". split; reflexivity.
Defined.


Lemma at_most_one_picture_is_shown_witness :
  (List.length
     (filter is_show
        (fst (fst (main (F := float) (H := album) (H0 := constant_embedder)
                     (H1 := sample_store) (H2 := pics)
                     (H3 := first_by_file_name)
                     ["picture_ingest_search.py"; "search"; "red"; "car"]
                     "pics"
                     [picture_doc "cat.jpg" [PrimFloat.one; PrimFloat.zero]
                        "pics/cat.jpg"]))))
   <= 1)%nat.
Proof.
  exact (at_most_one_picture_is_shown
           (F := float) (P := album) (V := constant_embedder)
           (C := sample_store) (FS := pics) (FD := first_by_file_name)
           ["picture_ingest_search.py"; "search"; "red"; "car"]
           "pics"
           [picture_doc "cat.jpg" [PrimFloat.one; PrimFloat.zero]
              "pics/cat.jpg"]
           sample_store_honours_limit).
Defined.

Lemma search_shows_stored_path_witness :
  main (F := float) (H := album) (H0 := constant_embedder)
    (H1 := sample_store) (H2 := pics) (H3 := first_by_file_name)
    ["picture_ingest_search.py"; "SEARCH"; "red"; "car"] "pics"
    [picture_doc "cat.jpg" [PrimFloat.one; PrimFloat.zero] "pics/cat.jpg"]
  = ([EPrint (LResultsFor "red car");
      EPrint (LMatch (PStr "cat.jpg") (PFloat PrimFloat.one));
      EShow "pics/cat.jpg"],
     [picture_doc "cat.jpg" [PrimFloat.one; PrimFloat.zero] "pics/cat.jpg"],
     Returned).
Proof.
  apply (search_shows_stored_path (F := float) (P := album)
           (V := constant_embedder) (C := sample_store) (FS := pics)
           (FD := first_by_file_name)
           "picture_ingest_search.py" "SEARCH" "red" ["car"] "pics"
           [picture_doc "cat.jpg" [PrimFloat.one; PrimFloat.zero]
              "pics/cat.jpg"]
           [LResultsFor "red car";
            LMatch (PStr "cat.jpg") (PFloat PrimFloat.one)]
           (PDict [("file_name", PStr "cat.jpg");
                   ("score", PFloat PrimFloat.one)])
           (PStr "cat.jpg")
           [("file_name", PStr "cat.jpg");
            ("embedding", PEmb [PrimFloat.one; PrimFloat.zero]);
            ("metadata", PDict [("path", PStr "pics/cat.jpg")])]
           [("path", PStr "pics/cat.jpg")]
           "pics/cat.jpg" (mkImage (4, 4) "RGB" tt));
    reflexivity.
Defined.
